(** * Smart-TV package exporters: path rewriting, staging and descriptors

    A shallow embedding of the two export scripts of the repository
    (the Samsung Tizen exporter and the LG webOS exporter,
    [scripts/export-webos.js] and its Tizen sibling) together with the
    properties their specification states about them. *)

From Stdlib Require Import List Ascii String Bool Arith Lia.
From Stdlib Require Import Floats.SpecFloat.
Import ListNotations.

Set Implicit Arguments.

(** ** Text

    A text is a list of 8-bit character codes: the bytes of a file, which
    are also the JavaScript string read from it as UTF-8.  The patterns of
    the scripts are ASCII and no byte of a multi-byte UTF-8 character is an
    ASCII byte, so the rewriting rules act on the bytes as they act on the
    string. *)

Definition text := list ascii.

Definition dq : ascii := "034"%char.

Definition lit (s : string) : text := list_ascii_of_string s.

Fixpoint starts (p s : text) : bool :=
  match p, s with
  | [], _ => true
  | a :: p', b :: s' => Ascii.eqb a b && starts p' s'
  | _ :: _, [] => false
  end.

(** The longest run of characters other than the double quote, and what
    follows it: the greedy character class of the generic patterns, which
    excludes the double quote only. *)
Fixpoint span_not_dq (s : text) : text * text :=
  match s with
  | [] => ([], [])
  | c :: s' =>
    if Ascii.eqb c dq then ([], s)
    else let (g, r) := span_not_dq s' in (c :: g, r)
  end.

Fixpoint no_dq (s : text) : bool :=
  match s with
  | [] => true
  | c :: s' => negb (Ascii.eqb c dq) && no_dq s'
  end.

(** ** [String.prototype.replace] with a global pattern

    A matcher looks at the text from the current position on and, when the
    pattern matches there, gives the replacement and the length of the
    match (never zero for the patterns of the scripts).  The scan goes left
    to right: at a match the replacement is emitted and the scan resumes
    after the match, otherwise one character is copied. *)

Definition matcher := text -> option (text * nat).

Fixpoint replace_from (m : matcher) (skip : nat) (s : text) : text :=
  match s with
  | [] => []
  | c :: s' =>
    match skip with
    | S k => replace_from m k s'
    | O =>
      match m s with
      | Some (out, n) => out ++ replace_from m (pred n) s'
      | None => c :: replace_from m 0 s'
      end
    end
  end.

Definition replace_all (m : matcher) (s : text) : text := replace_from m 0 s.

(** [/p/g] for a literal [p], replaced by [r]. *)
Definition match_literal (p r : text) : matcher := fun s =>
  if starts p s then Some (r, List.length p) else None.

(** The pattern made of a literal [p], a group of one or more characters
    other than the double quote, and a double quote; replaced by [r], the
    group and a double quote.  After [p] the class takes the longest run
    without a double quote, which must be non-empty and followed by a double
    quote (giving characters back cannot help: a shorter run is followed by
    a character of the class). *)
Definition match_quoted (p r : text) : matcher := fun s =>
  if starts p s then
    match span_not_dq (skipn (List.length p) s) with
    | ((_ :: _) as g, _ :: _) =>
      Some (r ++ g ++ [dq], List.length p + List.length g + 1)
    | _ => None
    end
  else None.

Inductive attr := Src | Href.

Definition attr_name (a : attr) : text :=
  match a with Src => lit "src=" | Href => lit "href=" end.

(** The attribute name with the opening quote and the leading slash, and
    without the slash. *)
Definition abs_prefix (a : attr) : text := attr_name a ++ [dq] ++ lit "/".
Definition rel_prefix (a : attr) : text := attr_name a ++ [dq].

Definition expo : text := lit "_expo/".

(** First pair of replacements: the bundler prefix after the opening quote
    loses its leading slash. *)
Definition strip_expo (a : attr) : text -> text :=
  replace_all (match_literal (abs_prefix a ++ expo) (rel_prefix a ++ expo)).

(** Second pair of replacements: any quoted value with a leading slash
    loses it. *)
Definition strip_slash (a : attr) : text -> text :=
  replace_all (match_quoted (abs_prefix a) (rel_prefix a)).

(** The four replacements of [fixIndexHtmlPaths], in the order of the
    script (the same in both exporters). *)
Definition rewrite_paths (content : text) : text :=
  strip_slash Href (strip_slash Src (strip_expo Href (strip_expo Src content))).

(** Only the two generic rules. *)
Definition rewrite_generic (content : text) : text :=
  strip_slash Href (strip_slash Src content).

(** ** File system

    Everything the scripts touch lies under the project directory (the
    parent of [scripts/]), so the file system is the tree below it and a
    path is the list of names from there.  A directory lists its entries in
    creation order; an existing name is replaced in place. *)

#[warnings="-register-all"]
Inductive node :=
| File (data : text)
| Dir (entries : list (string * node)).

Definition path := list string.

Fixpoint assoc (x : string) (es : list (string * node)) : option node :=
  match es with
  | [] => None
  | (y, n) :: es' => if String.eqb x y then Some n else assoc x es'
  end.

Fixpoint put_entry (x : string) (n : node) (es : list (string * node))
  : list (string * node) :=
  match es with
  | [] => [(x, n)]
  | (y, m) :: es' =>
    if String.eqb x y then (y, n) :: es' else (y, m) :: put_entry x n es'
  end.

Fixpoint del_entry (x : string) (es : list (string * node))
  : list (string * node) :=
  match es with
  | [] => []
  | (y, m) :: es' =>
    if String.eqb x y then del_entry x es' else (y, m) :: del_entry x es'
  end.

Fixpoint get (p : path) (n : node) : option node :=
  match p with
  | [] => Some n
  | x :: p' =>
    match n with
    | Dir es => match assoc x es with Some c => get p' c | None => None end
    | File _ => None
    end
  end.

(** [set_at p v n]: the tree [n] with [v] at [p], when the parent of [p] is
    a directory of [n] (otherwise [n] itself). *)
Fixpoint set_at (p : path) (v : node) (n : node) : node :=
  match p with
  | [] => v
  | [x] =>
    match n with
    | Dir es => Dir (put_entry x v es)
    | File _ => n
    end
  | x :: p' =>
    match n with
    | Dir es =>
      match assoc x es with
      | Some c => Dir (put_entry x (set_at p' v c) es)
      | None => n
      end
    | File _ => n
    end
  end.

Fixpoint remove (p : path) (n : node) : node :=
  match p with
  | [] => n
  | [x] =>
    match n with
    | Dir es => Dir (del_entry x es)
    | File _ => n
    end
  | x :: p' =>
    match n with
    | Dir es =>
      match assoc x es with
      | Some c => Dir (put_entry x (remove p' c) es)
      | None => n
      end
    | File _ => n
    end
  end.

(** A directory lists each name once, at every level. *)
Fixpoint distinct (l : list string) : bool :=
  match l with
  | [] => true
  | x :: l' => negb (existsb (String.eqb x) l') && distinct l'
  end.

Fixpoint well_formed (n : node) : bool :=
  match n with
  | File _ => true
  | Dir es =>
    distinct (map fst es) && forallb (fun e => well_formed (snd e)) es
  end.

(** The number of directory levels of a tree. *)
Fixpoint depth (n : node) : nat :=
  match n with
  | File _ => 0
  | Dir es => S (fold_right (fun e m => Nat.max (depth (snd e)) m) 0 es)
  end.

(** ** The process: files, console, exceptions and exit

    A computation runs on the files and the console written so far.  It
    returns, throws a JavaScript exception, or ends the process through
    [process.exit]; [Unfinished] is the recursion bound of the directory
    copy running out. *)

Inductive errno := ENOENT | ENOTDIR | EISDIR | EEXIST.

Inductive exn :=
| FsError (code : errno) (p : path)
| SyntaxError
| TypeError
| CommandFailed (cmd : text).

Inductive level := LOG | WARN | ERROR.

(** One argument of a console call: a string, or the [message] of a caught
    exception. *)
Inductive piece :=
| Text (t : text)
| MessageOf (e : exn).

Record world := World { files : node; console : list (level * list piece) }.

Inductive outcome (A : Type) :=
| Returned (a : A) (w : world)
| Thrown (e : exn) (w : world)
| Exited (code : nat) (w : world)
| Unfinished.

Arguments Thrown {A} e w.
Arguments Exited {A} code w.
Arguments Unfinished {A}.

Definition M (A : Type) := world -> outcome A.

Definition ret {A} (a : A) : M A := fun w => Returned a w.

Definition bind {A B} (c : M A) (k : A -> M B) : M B := fun w =>
  match c w with
  | Returned a w' => k a w'
  | Thrown e w' => Thrown e w'
  | Exited n w' => Exited n w'
  | Unfinished => Unfinished
  end.

Definition throw {A} (e : exn) : M A := fun w => Thrown e w.

Definition process_exit {A} (code : nat) : M A := fun w => Exited code w.

Definition try_catch {A} (c : M A) (h : exn -> M A) : M A := fun w =>
  match c w with
  | Thrown e w' => h e w'
  | o => o
  end.

Notation "x <- c ;; k" := (bind c (fun x => k))
  (at level 61, c at next level, right associativity).
Notation "c ;; k" := (bind c (fun _ => k))
  (at level 61, right associativity).

Definition print (l : level) (ps : list piece) : M unit := fun w =>
  Returned tt (World (files w) (console w ++ [(l, ps)])).

Definition console_log (s : text) : M unit := print LOG [Text s].
Definition console_warn (s : text) : M unit := print WARN [Text s].
Definition console_error (s : text) : M unit := print ERROR [Text s].

Definition lift {A} (f : node -> exn + A) : M A := fun w =>
  match f (files w) with
  | inr a => Returned a w
  | inl e => Thrown e w
  end.

Definition update (f : node -> exn + node) : M unit := fun w =>
  match f (files w) with
  | inr n => Returned tt (World n (console w))
  | inl e => Thrown e w
  end.

Fixpoint for_each {A} (l : list A) (body : A -> M unit) : M unit :=
  match l with
  | [] => ret tt
  | a :: l' => body a ;; for_each l' body
  end.

(** ** The [fs] calls the scripts make *)

Definition existsSync (p : path) : M bool := fun w =>
  Returned (match get p (files w) with Some _ => true | None => false end) w.

(** [fs.rmSync(p, { recursive: true, force: true })] *)
Definition rmSync (p : path) : M unit :=
  update (fun n => inr (remove p n)).

(** [fs.mkdirSync(p, { recursive: true })]: missing directories along [p]
    are created, existing ones are kept, a file in the way is an error. *)
Fixpoint mkdirp (full p : path) (n : node) : exn + node :=
  match n with
  | File _ => inl (FsError (match p with [] => EEXIST | _ => ENOTDIR end) full)
  | Dir es =>
    match p with
    | [] => inr n
    | x :: p' =>
      match mkdirp full p'
              (match assoc x es with Some c => c | None => Dir [] end) with
      | inr c' => inr (Dir (put_entry x c' es))
      | inl e => inl e
      end
    end
  end.

Definition mkdirSync (p : path) : M unit := update (mkdirp p p).

(** [fs.readdirSync(p, { withFileTypes: true })]: the name of each entry and
    whether it is a directory. *)
Definition dirent (e : string * node) : string * bool :=
  (fst e, match snd e with Dir _ => true | File _ => false end).

Definition readdirSync (p : path) : M (list (string * bool)) :=
  lift (fun n =>
    match get p n with
    | Some (Dir es) => inr (map dirent es)
    | Some (File _) => inl (FsError ENOTDIR p)
    | None => inl (FsError ENOENT p)
    end).

Definition readFileSync (p : path) : M text :=
  lift (fun n =>
    match get p n with
    | Some (File d) => inr d
    | Some (Dir _) => inl (FsError EISDIR p)
    | None => inl (FsError ENOENT p)
    end).

(** Writing creates the file or replaces its content; the directory it goes
    into has to exist, and a directory cannot be written over. *)
Definition write_node (p : path) (d : text) (n : node) : exn + node :=
  match p with
  | [] => inl (FsError EISDIR p)
  | _ :: _ =>
    match get (removelast p) n with
    | Some (Dir es) =>
      match assoc (last p EmptyString) es with
      | Some (Dir _) => inl (FsError EISDIR p)
      | _ => inr (set_at p (File d) n)
      end
    | Some (File _) => inl (FsError ENOTDIR p)
    | None => inl (FsError ENOENT p)
    end
  end.

Definition writeFileSync (p : path) (d : text) : M unit :=
  update (write_node p d).

Definition copyFileSync (src dest : path) : M unit :=
  d <- readFileSync src ;;
  writeFileSync dest d.

(** [path.join(dir, name)] for a name that is a single component. *)
Definition join (dir : path) (name : string) : path := dir ++ [name].

(** ** JSON values and the metadata read from [package.json] *)

#[warnings="-register-all"]
Inductive json :=
| JNull
| JBool (b : bool)
| JNumber (x : spec_float)
| JString (s : text)
| JArray (items : list json)
| JObject (fields : list (string * json)).

(** What lies outside the scripts: the JSON parser and number printing of
    the runtime, where the project directory is (for the paths shown to the
    operator) and what the external commands do to the files. *)
Record env := Env {
  JSON_parse : text -> option json;
  number_text : spec_float -> text;
  absolute : path -> text;
  relative_to_cwd : path -> text;
  exec : text -> node -> node * bool
}.

Fixpoint field (k : string) (fields : list (string * json)) : option json :=
  match fields with
  | [] => None
  | (k', v) :: rest => if String.eqb k k' then Some v else field k rest
  end.

(** [value.version]: [None] is [undefined]; reading a property of [null]
    throws. *)
Definition version_of (packageJson : json) : exn + option json :=
  match packageJson with
  | JNull => inl TypeError
  | JObject fields => inr (field "version" fields)
  | _ => inr None
  end.

(** JavaScript truthiness of a value that may be [undefined]. *)
Definition truthy (v : option json) : bool :=
  match v with
  | None => false
  | Some JNull => false
  | Some (JBool b) => b
  | Some (JNumber x) =>
    match x with
    | S754_zero _ => false
    | S754_nan => false
    | _ => true
    end
  | Some (JString s) => match s with [] => false | _ :: _ => true end
  | Some (JArray _) => true
  | Some (JObject _) => true
  end.

(** [v || fallback] *)
Definition or_else (v : option json) (fallback : json) : json :=
  match v with
  | Some j => if truthy v then j else fallback
  | None => fallback
  end.

Fixpoint join_with (sep : text) (l : list text) : text :=
  match l with
  | [] => []
  | [t] => t
  | t :: l' => t ++ sep ++ join_with sep l'
  end.

(** Interpolation in a template literal. *)
Fixpoint to_text (E : env) (v : json) : text :=
  match v with
  | JNull => lit "null"
  | JBool true => lit "true"
  | JBool false => lit "false"
  | JNumber x => number_text E x
  | JString s => s
  | JArray items =>
    join_with (lit ",")
      (map (fun i => match i with JNull => [] | _ => to_text E i end) items)
  | JObject _ => lit "[object Object]"
  end.

Definition nl : text := ["010"%char].
Definition backslash : ascii := "092"%char.

Definition hex_digit (n : nat) : ascii :=
  nth n (lit "0123456789abcdef") "0"%char.

Definition escape_char (c : ascii) : text :=
  let n := nat_of_ascii c in
  if Ascii.eqb c dq then [backslash; dq]
  else if Ascii.eqb c backslash then [backslash; backslash]
  else if n =? 8 then backslash :: lit "b"
  else if n =? 9 then backslash :: lit "t"
  else if n =? 10 then backslash :: lit "n"
  else if n =? 12 then backslash :: lit "f"
  else if n =? 13 then backslash :: lit "r"
  else if n <? 32 then backslash :: lit "u00" ++ [hex_digit (n / 16); hex_digit (n mod 16)]
  else [c].

Definition quote (s : text) : text := dq :: flat_map escape_char s ++ [dq].

(** [JSON.stringify(v, null, 2)] at the indentation [ind]. *)
Fixpoint stringify (E : env) (ind : text) (v : json) : text :=
  let inner := ind ++ lit "  " in
  match v with
  | JNull => lit "null"
  | JBool true => lit "true"
  | JBool false => lit "false"
  | JNumber x =>
    match x with
    | S754_infinity _ => lit "null"
    | S754_nan => lit "null"
    | _ => number_text E x
    end
  | JString s => quote s
  | JArray [] => lit "[]"
  | JArray items =>
    lit "[" ++ nl ++ inner
    ++ join_with (lit "," ++ nl ++ inner) (map (stringify E inner) items)
    ++ nl ++ ind ++ lit "]"
  | JObject [] => lit "{}"
  | JObject fields =>
    lit "{" ++ nl ++ inner
    ++ join_with (lit "," ++ nl ++ inner)
         (map (fun kv => quote (lit (fst kv)) ++ lit ": " ++ stringify E inner (snd kv)) fields)
    ++ nl ++ ind ++ lit "}"
  end.

(** ** What the two exporters share *)

Definition DIST_DIR : path := ["dist"%string].
Definition PACKAGE_JSON_PATH : path := ["package.json"%string].
Definition iconsDir : path := ["assets"%string; "images"%string].

Definition execSync (E : env) (cmd : text) : M unit := fun w =>
  let (n, ok) := exec E cmd (files w) in
  if ok then Returned tt (World n (console w))
  else Thrown (CommandFailed cmd) (World n (console w)).

(** The metadata is read when the script is loaded, before [main]. *)
Definition read_package (E : env) : M json :=
  try_catch
    (raw <- readFileSync PACKAGE_JSON_PATH ;;
     match JSON_parse E raw with
     | Some j => ret j
     | None => throw SyntaxError
     end)
    (fun error =>
       print ERROR [Text (lit "Error reading package.json:"); MessageOf error] ;;
       process_exit 1).

Definition configured_version (packageJson : json) : M json :=
  lift (fun _ =>
    match version_of packageJson with
    | inr v => inr (or_else v (JString (lit "1.0.0")))
    | inl e => inl e
    end).

Fixpoint copyDirectory (fuel : nat) (src dest : path) : M unit :=
  match fuel with
  | O => fun _ => Unfinished
  | S fuel' =>
    mkdirSync dest ;;
    entries <- readdirSync src ;;
    for_each entries (fun entry =>
      let srcPath := join src (fst entry) in
      let destPath := join dest (fst entry) in
      if snd entry then copyDirectory fuel' srcPath destPath
      else copyFileSync srcPath destPath)
  end.

(** [copyDistFiles] for the staging directory [STAGING]; [label] is the
    platform named in the message. *)
Definition copyDistFiles (fuel : nat) (STAGING : path) (label : string) : M unit :=
  dist <- existsSync DIST_DIR ;;
  (if negb dist then
     console_error (lit "Error: dist directory not found. Please run " ++ dq :: lit "npx expo export --platform web" ++ dq :: lit " first.") ;;
     process_exit 1
   else ret tt) ;;
  old <- existsSync STAGING ;;
  (if old then rmSync STAGING else ret tt) ;;
  mkdirSync STAGING ;;
  copyDirectory fuel DIST_DIR STAGING ;;
  console_log (lit "✓ Copied dist files to " ++ lit label ++ lit " build directory").

Definition fixIndexHtmlPaths (STAGING : path) : M unit :=
  let indexPath := join STAGING "index.html" in
  found <- existsSync indexPath ;;
  if negb found then
    console_warn (lit "⚠ index.html not found, skipping path fixes")
  else
    indexContent <- readFileSync indexPath ;;
    writeFileSync indexPath (rewrite_paths indexContent) ;;
    console_log (lit "✓ Fixed paths in index.html to use relative URLs (no leading slash)").

(** The exit status the operating system sees. *)
Definition exit_status (o : outcome unit) : option nat :=
  match o with
  | Returned _ _ => Some 0
  | Thrown _ _ => Some 1
  | Exited code _ => Some code
  | Unfinished => None
  end.


Definition q (t : text) : text := dq :: t ++ [dq].
Definition rule : text := repeat "="%char 60.

(** ** The Samsung (Tizen) exporter *)

Module Tizen.

Definition TIZEN_DIR : path := ["tizen-build"%string].

Record author_info := { author_name : text; email : text; href : text }.

Record config := {
  packageId : text;
  appId : text;
  version : json;
  name : text;
  author : author_info;
  description : text;
  icon : string;
  content : text;
  privileges : list text;
  features : list text
}.

Definition TIZEN_CONFIG (configured : json) : config := {|
  packageId := lit "MultiTVExpoApp";
  appId := lit "multitv.expoapp";
  version := configured;
  name := lit "Multi-TV App";
  author := {|
    author_name := lit "Multi-TV";
    email := lit "developer@multitv.com";
    href := lit "https://multitv.com" |};
  description := lit "Multi-platform TV application built with React Native";
  icon := "icon.png";
  content := lit "index.html";
  privileges := [lit "http://tizen.org/privilege/internet";
                 lit "http://tizen.org/privilege/application.launch"];
  features := [lit "http://tizen.org/feature/screen.size.normal.1080.1920"]
|}.

(** The start of [config.xml], up to the opening quote of the version. *)
Definition xml_head (c : config) : text :=
  lit "<?xml version=" ++ q (lit "1.0") ++ lit " encoding=" ++ q (lit "UTF-8") ++ lit "?>" ++ nl
  ++ lit "<widget xmlns=" ++ q (lit "http://www.w3.org/ns/widgets") ++ nl
  ++ lit "        xmlns:tizen=" ++ q (lit "http://tizen.org/ns/widgets") ++ nl
  ++ lit "        id=" ++ q (packageId c) ++ nl
  ++ lit "        version=" ++ [dq].

(** The rest of [config.xml], from the closing quote of the version. *)
Definition xml_tail (c : config) : text :=
  [dq] ++ nl
  ++ lit "        viewmodes=" ++ q (lit "maximized") ++ lit ">" ++ nl
  ++ lit "    <tizen:application id=" ++ q (appId c) ++ lit " package=" ++ q (packageId c)
  ++ lit " required_version=" ++ q (lit "6.0") ++ lit "/>" ++ nl
  ++ lit "    <content src=" ++ q (content c) ++ lit "/>" ++ nl
  ++ lit "    <feature name=" ++ q (lit "http://tizen.org/feature/screen.size.normal.1080.1920") ++ lit "/>" ++ nl
  ++ lit "    <icon src=" ++ q (lit (icon c)) ++ lit "/>" ++ nl
  ++ lit "    <name>" ++ name c ++ lit "</name>" ++ nl
  ++ lit "    <tizen:profile name=" ++ q (lit "tv-samsung") ++ lit "/>" ++ nl
  ++ lit "    <tizen:privilege name=" ++ q (lit "http://tizen.org/privilege/internet") ++ lit "/>" ++ nl
  ++ lit "    <tizen:privilege name=" ++ q (lit "http://tizen.org/privilege/application.launch") ++ lit "/>" ++ nl
  ++ lit "    <tizen:setting screen-orientation=" ++ q (lit "landscape") ++ nl
  ++ lit "                   context-menu=" ++ q (lit "enable") ++ nl
  ++ lit "                   background-support=" ++ q (lit "disable") ++ nl
  ++ lit "                   encryption=" ++ q (lit "disable") ++ nl
  ++ lit "                   install-location=" ++ q (lit "auto") ++ nl
  ++ lit "                   hwkey-event=" ++ q (lit "enable") ++ lit "/>" ++ nl
  ++ lit "    <description>" ++ description c ++ lit "</description>" ++ nl
  ++ lit "    <author email=" ++ q (email (author c)) ++ nl
  ++ lit "            href=" ++ q (href (author c)) ++ lit ">" ++ nl
  ++ lit "        " ++ author_name (author c) ++ nl
  ++ lit "    </author>" ++ nl
  ++ lit "</widget>".

Definition configXml (E : env) (c : config) : text :=
  xml_head c ++ to_text E (version c) ++ xml_tail c.

Definition createConfigXml (E : env) (c : config) : M unit :=
  let configPath := join TIZEN_DIR "config.xml" in
  writeFileSync configPath (configXml E c) ;;
  console_log (lit "✓ Created config.xml").

Definition handleIcons (c : config) : M unit :=
  let iconPath := join TIZEN_DIR (icon c) in
  let placeholderIcon := join iconsDir "icon-512.png" in
  found <- existsSync placeholderIcon ;;
  if found then
    copyFileSync placeholderIcon iconPath ;;
    console_log (lit "✓ Copied 512x512 icon")
  else
    console_warn (lit "⚠ No 512x512 icon found. You need to add:") ;;
    console_warn (lit "  - assets/images/icon-512.png (512x512 PNG)").

Definition package_command (E : env) (c : config) : text :=
  lit "tizen package -t wgt -s " ++ packageId c ++ lit " -o "
  ++ q (absolute E [] ++ lit "/") ++ lit " -- " ++ q (absolute E TIZEN_DIR).

(** The lines of the [catch] block of [createWGT], one per
    [console.warn]. *)
Definition recovery (c : config) : list text :=
  [ nl ++ lit "⚠ tizen CLI not found. To create a WGT package:";
    lit "  1. Install Tizen Studio: https://developer.tizen.org/development/tizen-studio/download";
    lit "  2. Add tizen CLI to your PATH";
    lit "  3. Create certificate: tizen certificate -a MyProfile -p <password>";
    lit "  4. Run: tizen package -t wgt -s " ++ packageId c ++ lit " -- tizen-build" ].

Definition createWGT (E : env) (c : config) : M unit :=
  try_catch
    (execSync E (lit "which tizen") ;;
     console_log (nl ++ lit "📦 Creating WGT package...") ;;
     execSync E (package_command E c) ;;
     console_log (lit "✓ WGT package created successfully"))
    (fun error => for_each (recovery c) console_warn).

(** The lines of [displayInstructions], one per [console.log]. *)
Definition instructions (E : env) (c : config) : list text :=
    [ nl ++ rule;
      lit "Tizen Build Complete!";
      rule;
      nl ++ lit "Build directory: " ++ absolute E TIZEN_DIR;
      nl ++ lit "Next steps:";
      lit "  1. Review and customize config.xml if needed";
      lit "  2. Add proper icon (512x512 PNG)";
      nl ++ lit "To create a WGT package:";
      lit "  1. Install Tizen Studio";
      lit "  2. Create a certificate:";
      lit "     tizen certificate -a MyProfile -p <password>";
      lit "  3. Create security profile:";
      lit "     tizen security-profiles add -n MyProfile -a /path/to/author.p12 -p <password>";
      lit "  4. Package the app:";
      lit "     tizen package -t wgt -s " ++ packageId c ++ lit " -- " ++ relative_to_cwd E TIZEN_DIR;
      nl ++ lit "To install on your Samsung TV:";
      lit "  1. Enable developer mode on TV";
      lit "  2. Connect to TV:";
      lit "     tizen connect <tv-ip-address>";
      lit "  3. Install the app:";
      lit "     tizen install -n " ++ packageId c ++ lit ".wgt -t <tv-name>";
      lit "  4. Run the app:";
      lit "     tizen run -p " ++ packageId c ++ lit " -t <tv-name>";
      rule ++ nl ].

Definition displayInstructions (E : env) (c : config) : M unit :=
  for_each (instructions E c) console_log.

Definition main (E : env) (c : config) (fuel : nat) : M unit :=
  console_log (lit "Starting Tizen export process..." ++ nl) ;;
  try_catch
    (copyDistFiles fuel TIZEN_DIR "Tizen" ;;
     fixIndexHtmlPaths TIZEN_DIR ;;
     createConfigXml E c ;;
     handleIcons c ;;
     createWGT E c ;;
     displayInstructions E c)
    (fun error =>
       print ERROR [Text (lit "Error during Tizen export:"); MessageOf error] ;;
       process_exit 1).

(** The whole script: load the metadata, build the configuration, run
    [main]. *)
Definition script (E : env) (fuel : nat) : M unit :=
  packageJson <- read_package E ;;
  configured <- configured_version packageJson ;;
  main E (TIZEN_CONFIG configured) fuel.

End Tizen.

(** ** The LG (webOS) exporter *)

Module WebOS.

Definition WEBOS_DIR : path := ["webos-build"%string].

Record config := {
  id : text;
  version : json;
  vendor : text;
  type : text;
  main_file : text;
  title : text;
  icon : string;
  largeIcon : string;
  bgImage : string;
  appDescription : text;
  resolution : text;
  disableBackHistoryAPI : bool;
  handlesRelaunch : bool
}.

Definition WEBOS_CONFIG (configured : json) : config := {|
  id := lit "com.multitv.expoapp";
  version := configured;
  vendor := lit "Multi-TV";
  type := lit "web";
  main_file := lit "index.html";
  title := lit "Multi-TV App";
  icon := "icon-80.png";
  largeIcon := "icon-130.png";
  bgImage := "splash.png";
  appDescription := lit "Multi-platform TV application built with React Native";
  resolution := lit "1920x1080";
  disableBackHistoryAPI := true;
  handlesRelaunch := true
|}.

(** The object literal of [createAppInfo], keys in the order written. *)
Definition appInfo (c : config) : json :=
  JObject
    [ ("id"%string, JString (id c));
      ("version"%string, version c);
      ("vendor"%string, JString (vendor c));
      ("type"%string, JString (type c));
      ("main"%string, JString (main_file c));
      ("title"%string, JString (title c));
      ("icon"%string, JString (lit (icon c)));
      ("largeIcon"%string, JString (lit (largeIcon c)));
      ("bgImage"%string, JString (lit (bgImage c)));
      ("appDescription"%string, JString (appDescription c));
      ("resolution"%string, JString (resolution c));
      ("disableBackHistoryAPI"%string, JBool (disableBackHistoryAPI c));
      ("handlesRelaunch"%string, JBool (handlesRelaunch c)) ].

Definition createAppInfo (E : env) (c : config) : M unit :=
  let appInfoPath := join WEBOS_DIR "appinfo.json" in
  writeFileSync appInfoPath (stringify E [] (appInfo c)) ;;
  console_log (lit "✓ Created appinfo.json").

(** One of the three blocks of [handleIcons]. *)
Definition copy_asset (source target : path) (copied : text) (missing : list text) : M unit :=
  found <- existsSync source ;;
  if found then
    copyFileSync source target ;;
    console_log copied
  else
    for_each missing console_warn.

Definition handleIcons (c : config) : M unit :=
  let icon80Path := join WEBOS_DIR (icon c) in
  let icon130Path := join WEBOS_DIR (largeIcon c) in
  let splashPath := join WEBOS_DIR (bgImage c) in
  let placeholderIcon80 := join iconsDir "icon-80.png" in
  let placeholderIcon130 := join iconsDir "icon-130.png" in
  let placeholderSplash := join iconsDir "splash-1920x1080.png" in
  copy_asset placeholderIcon80 icon80Path (lit "✓ Copied 80x80 icon")
    [lit "⚠ No 80x80 icon found. You need to add:";
     lit "  - assets/images/icon-80.png (80x80 PNG)"] ;;
  copy_asset placeholderIcon130 icon130Path (lit "✓ Copied 130x130 icon")
    [lit "⚠ No 130x130 icon found. You need to add:";
     lit "  - assets/images/icon-130.png (130x130 PNG)"] ;;
  copy_asset placeholderSplash splashPath (lit "✓ Copied splash image")
    [lit "⚠ No splash image found. You may want to add:";
     lit "  - assets/images/splash-1920x1080.png (1920x1080 PNG)"].

Definition package_command (E : env) : text :=
  lit "ares-package " ++ q (absolute E WEBOS_DIR) ++ lit " -o "
  ++ q (absolute E [] ++ lit "/") ++ lit " --no-minify".

(** The lines of the [catch] block of [createIPK], one per
    [console.warn]. *)
Definition recovery : list text :=
  [ nl ++ lit "⚠ ares-package not found. To create an IPK package:";
    lit "  1. Install webOS CLI: npm install -g @webos-tools/cli";
    lit "  2. Run: ares-package webos-build --no-minify" ].

Definition createIPK (E : env) : M unit :=
  try_catch
    (execSync E (lit "which ares-package") ;;
     console_log (nl ++ lit "📦 Creating IPK package...") ;;
     execSync E (package_command E) ;;
     console_log (lit "✓ IPK package created successfully"))
    (fun error => for_each recovery console_warn).

(** The lines of [displayInstructions], one per [console.log]. *)
Definition instructions (E : env) : list text :=
    [ nl ++ rule;
      lit "webOS Build Complete!";
      rule;
      nl ++ lit "Build directory: " ++ absolute E WEBOS_DIR;
      nl ++ lit "Next steps:";
      lit "  1. Review and customize appinfo.json if needed";
      lit "  2. Add proper icons (80x80 and 130x130 PNG)";
      lit "  3. Add splash image (1920x1080 PNG) if desired";
      nl ++ lit "To create an IPK package:";
      lit "  npm install -g @webos-tools/cli";
      lit "  ares-package " ++ relative_to_cwd E WEBOS_DIR;
      nl ++ lit "To install on your LG TV:";
      lit "  ares-setup-device --add <device-name> <ip-address>";
      lit "  ares-install --device <device-name> com.multitv.expoapp_*.ipk";
      lit "  ares-launch --device <device-name> com.multitv.expoapp";
      rule ++ nl ].

Definition displayInstructions (E : env) : M unit :=
  for_each (instructions E) console_log.

Definition main (E : env) (c : config) (fuel : nat) : M unit :=
  console_log (lit "Starting webOS export process..." ++ nl) ;;
  try_catch
    (copyDistFiles fuel WEBOS_DIR "webOS" ;;
     fixIndexHtmlPaths WEBOS_DIR ;;
     createAppInfo E c ;;
     handleIcons c ;;
     createIPK E ;;
     displayInstructions E)
    (fun error =>
       print ERROR [Text (lit "Error during webOS export:"); MessageOf error] ;;
       process_exit 1).

Definition script (E : env) (fuel : nat) : M unit :=
  packageJson <- read_package E ;;
  configured <- configured_version packageJson ;;
  main E (WEBOS_CONFIG configured) fuel.

End WebOS.


(** ** The mandatory steps

    The steps of [main] before the optional packaging, and the ones before
    the icons; [main] runs them in this order. *)

Definition tizen_descriptor_steps (E : env) (c : Tizen.config) (fuel : nat) : M unit :=
  copyDistFiles fuel Tizen.TIZEN_DIR "Tizen" ;;
  fixIndexHtmlPaths Tizen.TIZEN_DIR ;;
  Tizen.createConfigXml E c.

Definition tizen_steps (E : env) (c : Tizen.config) (fuel : nat) : M unit :=
  tizen_descriptor_steps E c fuel ;;
  Tizen.handleIcons c.

Definition webos_steps (E : env) (c : WebOS.config) (fuel : nat) : M unit :=
  copyDistFiles fuel WebOS.WEBOS_DIR "webOS" ;;
  fixIndexHtmlPaths WebOS.WEBOS_DIR ;;
  WebOS.createAppInfo E c ;;
  WebOS.handleIcons c.

Definition log_lines (l : list text) : list (level * list piece) :=
  map (fun t => (LOG, [Text t])) l.

Definition warn_lines (l : list text) : list (level * list piece) :=
  map (fun t => (WARN, [Text t])) l.

(** * Vocabulary of the properties *)

(** ** Where a pattern can match

    Every pattern of an attribute starts with the attribute name, the
    opening quote and the slash: a position is a [hit] when the text reads
    so from there. *)

Definition hit (a : attr) (s : text) : bool := starts (abs_prefix a) s.

Definition initial (a : attr) : ascii :=
  match a with Src => "s"%char | Href => "h"%char end.

Definition targets (a : attr) (m : matcher) : Prop :=
  forall s, hit a s = false -> m s = None.

(** No position of [u], read in [u ++ rest], is a hit. *)
Definition quiet (a : attr) (u rest : text) : Prop :=
  forall k, k < List.length u -> hit a (skipn k (u ++ rest)) = false.

Definition ends_with (n x : text) : bool := starts (rev n) (rev x).

Fixpoint no_hit (a : attr) (t : text) : bool :=
  match t with
  | [] => true
  | c :: t' => negb (hit a (c :: t')) && no_hit a t'
  end.

(** What follows does not continue a pattern begun before it. *)
Definition clear_start (a : attr) (rest : text) : bool :=
  match rest with
  | [] => true
  | c :: _ => negb (existsb (Ascii.eqb c) (tl (abs_prefix a)))
  end.

(** ** References

    A reference is an attribute with a quoted value; in its absolute form the
    value has the leading slash, in its relative form it has lost it. *)

Inductive form := Absolute | Relative.

Definition opening (f : form) (a : attr) : text :=
  match f with Absolute => abs_prefix a | Relative => rel_prefix a end.

Definition reference (f : form) (a : attr) (x : text) : text :=
  opening f a ++ x ++ [dq].

(** The value of a reference, after the slash: possibly empty, without
    double quote, and not ending with an attribute name (which would start a
    pattern at the closing quote). *)
Definition value_ok (x : text) : bool :=
  no_dq x
  && negb (ends_with (attr_name Src) x)
  && negb (ends_with (attr_name Href) x).

(** What the rewriting makes of a reference: relative, unless nothing
    follows the slash (the pattern asks for one character at least). *)
Definition final_form (x : text) : form :=
  match x with [] => Absolute | _ :: _ => Relative end.

Definition plain (t : text) : bool := no_hit Src t && no_hit Href t.

(** The two bundler rules at one reference: it becomes relative when its
    value starts with the bundler directory. *)
Definition after_expo (x : text) : form :=
  if starts expo x then Relative else Absolute.

(** ** Documents

    An entry file read as a sequence of references, each with the text
    before it, and an ending: plain text, or a reference whose closing quote
    is missing (text before, attribute, what follows the slash up to the end
    of the file). *)

Record link := Link { before : text; attribute : attr; value : text }.

Inductive ending :=
| Plain (t : text)
| Open (t : text) (a : attr) (y : text).

Definition render_ending (fe : form) (e : ending) : text :=
  match e with
  | Plain t => t
  | Open t a y => t ++ opening fe a ++ y
  end.

(** The ending is a reference to the bundler directory left open. *)
Definition open_bundler (e : ending) : bool :=
  match e with
  | Plain _ => false
  | Open _ _ y => starts expo y
  end.

Definition ending_form (e : ending) : form :=
  if open_bundler e then Relative else Absolute.

Fixpoint render (fl : link -> form) (fe : form) (d : list link) (e : ending) : text :=
  match d with
  | [] => render_ending fe e
  | l :: d' =>
    before l ++ reference (fl l) (attribute l) (value l) ++ render fl fe d' e
  end.

Definition link_ok (l : link) : bool :=
  plain (before l) && value_ok (value l).

Definition ending_ok (e : ending) : bool :=
  match e with
  | Plain t => plain t
  | Open t _ y => plain t && no_dq y
  end.

(** A reference closed by the first double quote after its slash, after a
    text in which no pattern starts. *)
Definition delimited (l : link) : bool :=
  plain (before l) && no_dq (value l).

Definition well_delimited (d : list link) (e : ending) : bool :=
  forallb link_ok d && ending_ok e.

Definition absolute_form (d : list link) (e : ending) : text :=
  render (fun _ => Absolute) Absolute d e.

(** The document with the leading slash stripped from every reference
    that has something after it, and from an open bundler reference. *)
Definition rewritten_form (d : list link) (e : ending) : text :=
  render (fun l => final_form (value l)) (ending_form e) d e.

(** The same with an open bundler reference left as it is. *)
Definition generic_form (d : list link) (e : ending) : text :=
  render (fun l => final_form (value l)) Absolute d e.

(** ** The recursive copy *)

(** Source and destination part at their first name. *)
Definition apart (src dest : path) : Prop :=
  match src, dest with
  | s0 :: _, d0 :: _ => s0 <> d0
  | _, _ => False
  end.

(** The destination is an empty directory, or a new name in an existing
    directory. *)
Definition ready (dest : path) (n : node) : Prop :=
  get dest n = Some (Dir [])
  \/ exists dir x es,
       dest = join dir x /\ get dir n = Some (Dir es) /\ assoc x es = None.

(** ** Staging *)

Definition copied_message (label : string) : level * list piece :=
  (LOG, [Text (lit "✓ Copied dist files to " ++ lit label ++ lit " build directory")]).




(** ** Control flow of the scripts *)

Definition package_error (e : exn) : level * list piece :=
  (ERROR, [Text (lit "Error reading package.json:"); MessageOf e]).


Definition tizen_start : level * list piece :=
  (LOG, [Text (lit "Starting Tizen export process..." ++ nl)]).

Definition webos_start : level * list piece :=
  (LOG, [Text (lit "Starting webOS export process..." ++ nl)]).


(** ** The version in the descriptors *)

(** [appinfo.json] up to the version, and after it. *)
Definition appinfo_head : text :=
  lit "{" ++ nl
  ++ lit "  " ++ q (lit "id") ++ lit ": " ++ q (lit "com.multitv.expoapp") ++ lit "," ++ nl
  ++ lit "  " ++ q (lit "version") ++ lit ": ".

Definition appinfo_tail : text :=
  lit "," ++ nl
  ++ lit "  " ++ q (lit "vendor") ++ lit ": " ++ q (lit "Multi-TV") ++ lit "," ++ nl
  ++ lit "  " ++ q (lit "type") ++ lit ": " ++ q (lit "web") ++ lit "," ++ nl
  ++ lit "  " ++ q (lit "main") ++ lit ": " ++ q (lit "index.html") ++ lit "," ++ nl
  ++ lit "  " ++ q (lit "title") ++ lit ": " ++ q (lit "Multi-TV App") ++ lit "," ++ nl
  ++ lit "  " ++ q (lit "icon") ++ lit ": " ++ q (lit "icon-80.png") ++ lit "," ++ nl
  ++ lit "  " ++ q (lit "largeIcon") ++ lit ": " ++ q (lit "icon-130.png") ++ lit "," ++ nl
  ++ lit "  " ++ q (lit "bgImage") ++ lit ": " ++ q (lit "splash.png") ++ lit "," ++ nl
  ++ lit "  " ++ q (lit "appDescription") ++ lit ": "
  ++ q (lit "Multi-platform TV application built with React Native") ++ lit "," ++ nl
  ++ lit "  " ++ q (lit "resolution") ++ lit ": " ++ q (lit "1920x1080") ++ lit "," ++ nl
  ++ lit "  " ++ q (lit "disableBackHistoryAPI") ++ lit ": true," ++ nl
  ++ lit "  " ++ q (lit "handlesRelaunch") ++ lit ": true" ++ nl
  ++ lit "}".


(** ** The optional packaging *)

Inductive platform := Samsung | LG.


Definition start_of (p : platform) : level * list piece :=
  match p with Samsung => tizen_start | LG => webos_start end.

Definition steps_of (p : platform) (E : env) (v : json) (fuel : nat) : M unit :=
  match p with
  | Samsung => tizen_steps E (Tizen.TIZEN_CONFIG v) fuel
  | LG => webos_steps E (WebOS.WEBOS_CONFIG v) fuel
  end.

Definition main_of (p : platform) (E : env) (v : json) (fuel : nat) : M unit :=
  match p with
  | Samsung => Tizen.main E (Tizen.TIZEN_CONFIG v) fuel
  | LG => WebOS.main E (WebOS.WEBOS_CONFIG v) fuel
  end.

Definition probe_of (p : platform) : text :=
  match p with
  | Samsung => lit "which tizen"
  | LG => lit "which ares-package"
  end.

Definition package_of (p : platform) (E : env) (v : json) : text :=
  match p with
  | Samsung => Tizen.package_command E (Tizen.TIZEN_CONFIG v)
  | LG => WebOS.package_command E
  end.

Definition recovery_of (p : platform) (v : json) : list text :=
  match p with
  | Samsung => Tizen.recovery (Tizen.TIZEN_CONFIG v)
  | LG => WebOS.recovery
  end.

Definition creating_of (p : platform) : text :=
  match p with
  | Samsung => nl ++ lit "📦 Creating WGT package..."
  | LG => nl ++ lit "📦 Creating IPK package..."
  end.

Definition created_of (p : platform) : text :=
  match p with
  | Samsung => lit "✓ WGT package created successfully"
  | LG => lit "✓ IPK package created successfully"
  end.

Definition instructions_of (p : platform) (E : env) (v : json) : list text :=
  match p with
  | Samsung => Tizen.instructions E (Tizen.TIZEN_CONFIG v)
  | LG => WebOS.instructions E
  end.

(** The files as the external commands of the packaging step leave them:
    the probe, and the packaging command when the probe succeeds. *)
Definition files_after_commands (p : platform) (E : env) (v : json) (n : node) : node :=
  let probe := exec E (probe_of p) n in
  if snd probe then fst (exec E (package_of p E v) (fst probe)) else fst probe.

(** What the packaging step prints. *)
Definition packaging_lines (p : platform) (E : env) (v : json) (n : node)
  : list (level * list piece) :=
  let probe := exec E (probe_of p) n in
  if snd probe then
    log_lines [creating_of p]
    ++ (if snd (exec E (package_of p E v) (fst probe))
        then log_lines [created_of p]
        else warn_lines (recovery_of p v))
  else warn_lines (recovery_of p v).

Definition missing_icon_lines : list text :=
  [ lit "⚠ No 512x512 icon found. You need to add:";
    lit "  - assets/images/icon-512.png (512x512 PNG)" ].

(** ** Samples *)

Definition sample_document : list link :=
  [ Link (lit "<script ") Src (lit "_expo/foo.js");
    Link (lit "></script><link ") Href (lit "_expo/bar.css");
    Link (lit "/><a ") Href [];
    Link (lit ">Home</a><img ") Src (lit "logo.png") ].


Definition sample_dist : list (string * node) :=
  [ ("index.html"%string, File (absolute_form sample_document (Plain (lit "/>"))));
    ("_expo"%string,
     Dir [ ("foo.js"%string, File (lit "js"));
           ("static"%string, Dir [ ("bar.css"%string, File (lit "css")) ]) ]);
    ("logo.png"%string, File (lit "png")) ].

Definition silent_env : env := {|
  JSON_parse := fun t =>
    if starts (lit "{") t
    then Some (JObject [("version"%string, JString (lit "2.3.1"))])
    else None;
  number_text := fun _ => lit "0";
  absolute := fun p => lit "/app" ++ flat_map (fun name => lit "/" ++ lit name) p;
  relative_to_cwd := fun p => join_with (lit "/") (map lit p);
  exec := fun _ n => (n, false)
|}.

Definition sample_package : string * node :=
  ("package.json"%string, File (lit "{ }")).

Definition sample_project : world :=
  World (Dir [ sample_package;
               ("dist"%string, Dir sample_dist);
               ("tizen-build"%string, Dir [ ("stale.js"%string, File (lit "old")) ]) ])
        [].


(** * Properties *)

#[local] Arguments Ascii.eqb : simpl never.
#[local] Arguments String.eqb : simpl never.

(** ** The scan of [replace_all] *)

Lemma replace_from_skipn (m : matcher) (k : nat) (s : text) :
  replace_from m k s = replace_all m (skipn k s).
Proof.
  revert k. induction s as [|c s IH]; intros [|k]; simpl; try reflexivity.
  apply IH.
Qed.

(** At a match the replacement is emitted and the scan resumes after it. *)
Lemma replace_all_match (m : matcher) (c : ascii) (s out : text) (n : nat) :
  m (c :: s) = Some (out, S n) ->
  replace_all m (c :: s) = out ++ replace_all m (skipn n s).
Proof.
  intros H. unfold replace_all at 1. simpl. rewrite H. simpl.
  now rewrite replace_from_skipn.
Qed.

Lemma replace_all_copy (m : matcher) (c : ascii) (s : text) :
  m (c :: s) = None -> replace_all m (c :: s) = c :: replace_all m s.
Proof.
  intros H. unfold replace_all at 1. simpl. now rewrite H.
Qed.

(** ** Prefix tests *)

Lemma starts_self (p s : text) : starts p (p ++ s) = true.
Proof.
  induction p as [|a p IH]; simpl; [reflexivity|].
  now rewrite Ascii.eqb_refl.
Qed.

Lemma starts_app_same (p p2 s : text) : starts (p ++ p2) (p ++ s) = starts p2 s.
Proof.
  induction p as [|a p IH]; simpl; [reflexivity|].
  now rewrite Ascii.eqb_refl.
Qed.

Lemma starts_app_l (p1 p2 s : text) :
  starts (p1 ++ p2) s = true -> starts p1 s = true.
Proof.
  revert s. induction p1 as [|a p1 IH]; intros s H; simpl in *; [reflexivity|].
  destruct s as [|b s]; [discriminate|].
  apply andb_true_iff in H as [H1 H2]. rewrite H1. simpl. now apply IH.
Qed.

Lemma starts_inv (p s : text) :
  starts p s = true -> exists r, s = p ++ r.
Proof.
  revert s. induction p as [|a p IH]; intros s H; simpl in *.
  - now exists s.
  - destruct s as [|b s]; [discriminate|].
    apply andb_true_iff in H as [H1 H2]. apply Ascii.eqb_eq in H1. subst b.
    destruct (IH _ H2) as [r ->]. now exists r.
Qed.

(** A pattern found at the start of [u ++ rest] lies within [u], or [rest]
    starts with one of its characters. *)
Lemma starts_split (p u rest : text) :
  starts p (u ++ rest) = true ->
  starts p u = true \/ exists c r, rest = c :: r /\ In c p.
Proof.
  revert u. induction p as [|a p IH]; intros u H; simpl in *.
  - now left.
  - destruct u as [|b u]; simpl in H.
    + destruct rest as [|c r]; [discriminate|].
      apply andb_true_iff in H as [H1 _]. apply Ascii.eqb_eq in H1. subst c.
      right. exists a, r. split; [reflexivity | now left].
    + apply andb_true_iff in H as [H1 H2].
      destruct (IH _ H2) as [Hl | (c & r & -> & Hin)].
      * left. now rewrite H1, Hl.
      * right. exists c, r. split; [reflexivity | now right].
Qed.

Lemma starts_split_tail (a : ascii) (p : text) (b : ascii) (u rest : text) :
  starts (a :: p) ((b :: u) ++ rest) = true ->
  starts (a :: p) (b :: u) = true \/ exists c r, rest = c :: r /\ In c p.
Proof.
  simpl. intros H. apply andb_true_iff in H as [H1 H2].
  destruct (starts_split _ _ _ H2) as [Hl | Hr].
  - left. now rewrite H1, Hl.
  - now right.
Qed.

Lemma no_dq_app (s t : text) : no_dq (s ++ t) = no_dq s && no_dq t.
Proof.
  induction s as [|c s IH]; simpl; [reflexivity|].
  now rewrite IH, andb_assoc.
Qed.

Lemma no_dq_skipn (k : nat) (s : text) : no_dq s = true -> no_dq (skipn k s) = true.
Proof.
  revert k. induction s as [|c s IH]; intros [|k] H; simpl in *; auto.
  apply andb_true_iff in H as [_ H]. now apply IH.
Qed.

(** The first double quote of the text has to face the first double quote
    of the pattern. *)
Lemma starts_quote_aligned (n p2 x rest : text) :
  no_dq n = true -> no_dq x = true ->
  starts (n ++ dq :: p2) (x ++ dq :: rest) = true -> x = n.
Proof.
  revert x. induction n as [|a n IH]; intros x Hn Hx H; simpl in *.
  - destruct x as [|b x]; [reflexivity|]. simpl in *.
    apply andb_true_iff in H as [H1 _]. apply Ascii.eqb_eq in H1. subst b.
    rewrite Ascii.eqb_refl in Hx. discriminate.
  - apply andb_true_iff in Hn as [Ha Hn].
    destruct x as [|b x]; simpl in *.
    + apply andb_true_iff in H as [H1 _]. apply Ascii.eqb_eq in H1. subst a.
      rewrite Ascii.eqb_refl in Ha. discriminate.
    + apply andb_true_iff in Hx as [_ Hx].
      apply andb_true_iff in H as [H1 H2]. apply Ascii.eqb_eq in H1. subst b.
      f_equal. now apply IH.
Qed.

Lemma span_not_dq_value (x rest : text) :
  no_dq x = true -> span_not_dq (x ++ dq :: rest) = (x, dq :: rest).
Proof.
  induction x as [|c x IH]; intros H; simpl in *.
  - reflexivity.
  - apply andb_true_iff in H as [Hc Hx].
    apply negb_true_iff in Hc. rewrite Hc. now rewrite IH.
Qed.

Lemma span_not_dq_open (x : text) :
  no_dq x = true -> span_not_dq x = (x, []).
Proof.
  induction x as [|c x IH]; intros H; simpl in *.
  - reflexivity.
  - apply andb_true_iff in H as [Hc Hx].
    apply negb_true_iff in Hc. rewrite Hc. now rewrite IH.
Qed.

Lemma skipn_length_app (A : Type) (p s : list A) : skipn (List.length p) (p ++ s) = s.
Proof.
  induction p; simpl; auto.
Qed.

(** ** Where a pattern can match *)

Lemma hit_initial (a : attr) (c : ascii) (s : text) :
  hit a (c :: s) = true -> c = initial a.
Proof.
  unfold hit. destruct a; cbn; intros H;
    apply andb_true_iff in H as [H _]; apply Ascii.eqb_eq in H; now subst.
Qed.

Lemma hit_has_quote (a : attr) (s : text) : no_dq s = true -> hit a s = false.
Proof.
  intros Hs. destruct (hit a s) eqn:E; [|reflexivity].
  apply starts_inv in E as [r ->]. rewrite no_dq_app in Hs.
  apply andb_true_iff in Hs as [Hp _]. destruct a; discriminate Hp.
Qed.

Lemma targets_quoted (a : attr) :
  targets a (match_quoted (abs_prefix a) (rel_prefix a)).
Proof.
  intros s H. unfold match_quoted. unfold hit in H. now rewrite H.
Qed.

Lemma targets_literal (a : attr) :
  targets a (match_literal (abs_prefix a ++ expo) (rel_prefix a ++ expo)).
Proof.
  intros s H. unfold match_literal.
  destruct (starts (abs_prefix a ++ expo) s) eqn:E; [|reflexivity].
  apply starts_app_l in E. unfold hit in H. congruence.
Qed.

Lemma quiet_nil (a : attr) (rest : text) : quiet a [] rest.
Proof. intros k Hk. simpl in Hk. lia. Qed.

Lemma quiet_cons (a : attr) (c : ascii) (u rest : text) :
  hit a (c :: u ++ rest) = false -> quiet a u rest -> quiet a (c :: u) rest.
Proof.
  intros H0 Hq [|k] Hk; simpl in *; [assumption|]. apply Hq. lia.
Qed.

Lemma quiet_cons_inv (a : attr) (c : ascii) (u rest : text) :
  quiet a (c :: u) rest -> hit a (c :: u ++ rest) = false /\ quiet a u rest.
Proof.
  intros Hq. split.
  - apply (Hq 0). simpl. lia.
  - intros k Hk. apply (Hq (S k)). simpl. lia.
Qed.

Lemma quiet_app (a : attr) (u1 u2 rest : text) :
  quiet a u1 (u2 ++ rest) -> quiet a u2 rest -> quiet a (u1 ++ u2) rest.
Proof.
  induction u1 as [|c u1 IH]; intros H1 H2; simpl; [assumption|].
  apply quiet_cons_inv in H1 as [H0 H1].
  apply quiet_cons; [now rewrite <- app_assoc | now apply IH].
Qed.

Lemma quiet_drop (a : attr) (u1 u2 rest : text) :
  quiet a (u1 ++ u2) rest -> quiet a u2 rest.
Proof.
  induction u1 as [|c u1 IH]; simpl; intros H; [assumption|].
  apply quiet_cons_inv in H as [_ H]. now apply IH.
Qed.

Lemma quiet_other_initial (a : attr) (u rest : text) :
  forallb (fun c => negb (Ascii.eqb c (initial a))) u = true -> quiet a u rest.
Proof.
  induction u as [|c u IH]; simpl; intros H; [apply quiet_nil|].
  apply andb_true_iff in H as [Hc Hu]. apply quiet_cons; [|now apply IH].
  destruct (hit a (c :: u ++ rest)) eqn:E; [|reflexivity].
  apply hit_initial in E. subst c. rewrite Ascii.eqb_refl in Hc. discriminate.
Qed.

Lemma ends_with_app (n pre : text) : ends_with n (pre ++ n) = true.
Proof.
  unfold ends_with. rewrite rev_app_distr. apply starts_self.
Qed.

(** Inside a value without double quote a hit would need the value to end
    with the attribute name, just before the closing quote. *)
Lemma quiet_value (a : attr) (x rest : text) :
  no_dq x = true -> ends_with (attr_name a) x = false ->
  quiet a x (dq :: rest).
Proof.
  intros Hx He k Hk.
  destruct (hit a (skipn k (x ++ dq :: rest))) eqn:E; [|reflexivity].
  rewrite skipn_app in E.
  replace (k - List.length x) with 0 in E by lia. simpl in E.
  unfold hit, abs_prefix in E.
  apply starts_quote_aligned in E.
  - rewrite <- (firstn_skipn k x), E, ends_with_app in He. discriminate.
  - now destruct a.
  - now apply no_dq_skipn.
Qed.

Lemma quiet_no_dq (a : attr) (u : text) : no_dq u = true -> quiet a u [].
Proof.
  intros Hu k _. apply hit_has_quote. rewrite app_nil_r. now apply no_dq_skipn.
Qed.

Lemma quiet_text (a : attr) (t rest : text) :
  no_hit a t = true -> clear_start a rest = true -> quiet a t rest.
Proof.
  intros Ht Hr. induction t as [|c t IH]; [apply quiet_nil|].
  simpl in Ht. apply andb_true_iff in Ht as [Hc Ht].
  apply quiet_cons; [|now apply IH].
  destruct (hit a (c :: t ++ rest)) eqn:E; [|reflexivity].
  apply negb_true_iff in Hc. unfold hit in E, Hc.
  assert (exists x p, abs_prefix a = x :: p /\ tl (abs_prefix a) = p)
    as (x & p & Hp & Htl) by (destruct a; cbn; eauto).
  rewrite Hp in E, Hc.
  destruct (starts_split_tail x p c t rest E) as [Hl | (c' & r & -> & Hin)].
  - congruence.
  - simpl in Hr. rewrite Htl in Hr. apply negb_true_iff in Hr.
    assert (existsb (Ascii.eqb c') p = true); [|congruence].
    apply existsb_exists. exists c'. split; [assumption | apply Ascii.eqb_refl].
Qed.

(** A stretch without hit is copied by any pass of the attribute. *)
Lemma replace_all_quiet (m : matcher) (a : attr) (u rest : text) :
  targets a m -> quiet a u rest ->
  replace_all m (u ++ rest) = u ++ replace_all m rest.
Proof.
  intros Ht. induction u as [|c u IH]; intros Hq; [reflexivity|].
  apply quiet_cons_inv in Hq as [H0 Hq]. simpl.
  rewrite replace_all_copy by now apply Ht.
  now rewrite IH.
Qed.

Lemma replace_all_skip (m : matcher) (s out : text) (n : nat) :
  s <> [] -> n <> 0 -> m s = Some (out, n) ->
  replace_all m s = out ++ replace_all m (skipn n s).
Proof.
  intros Hs Hn H. destruct s as [|c s]; [congruence|].
  destruct n as [|n]; [congruence|]. simpl. now apply replace_all_match.
Qed.

(** ** References *)

Lemma value_ok_inv (x : text) :
  value_ok x = true ->
  no_dq x = true /\ forall b, ends_with (attr_name b) x = false.
Proof.
  unfold value_ok. intros H.
  repeat (apply andb_true_iff in H as [H ?]).
  split; [assumption|].
  intros []; now apply negb_true_iff.
Qed.

Lemma quiet_closed_value (b : attr) (x rest : text) :
  value_ok x = true -> quiet b (x ++ [dq]) rest.
Proof.
  intros H. apply value_ok_inv in H as (Hq & He).
  apply quiet_app.
  - now apply quiet_value.
  - apply quiet_other_initial. now destruct b.
Qed.

Lemma quiet_after (b : attr) (pre x rest : text) :
  forallb (fun c => negb (Ascii.eqb c (initial b))) pre = true ->
  value_ok x = true ->
  quiet b (pre ++ x ++ [dq]) rest.
Proof.
  intros Hp Hx. apply quiet_app.
  - now apply quiet_other_initial.
  - now apply quiet_closed_value.
Qed.

Lemma reference_clear_start (b : attr) (f : form) (a : attr) (x rest : text) :
  clear_start b (reference f a x ++ rest) = true.
Proof. now destruct b, f, a. Qed.

(** A pass copies the text before a reference. *)
Lemma pass_text (m : matcher) (b : attr) (t rest : text) :
  targets b m -> no_hit b t = true -> clear_start b rest = true ->
  replace_all m (t ++ rest) = t ++ replace_all m rest.
Proof.
  intros Hm Ht Hr. apply replace_all_quiet with (a := b); [assumption|].
  now apply quiet_text.
Qed.

(** A pass of one attribute copies the references of the other. *)
Lemma pass_other (m : matcher) (b : attr) (f : form) (a : attr) (x rest : text) :
  targets b m -> a <> b -> value_ok x = true ->
  replace_all m (reference f a x ++ rest) = reference f a x ++ replace_all m rest.
Proof.
  intros Hm Hab Hx. apply replace_all_quiet with (a := b); [assumption|].
  apply quiet_after; [|assumption].
  destruct a, b, f; try reflexivity; congruence.
Qed.

(** A pass copies a reference at which its matcher fails. *)
Lemma pass_keep (m : matcher) (f : form) (a : attr) (x rest : text) :
  targets a m -> value_ok x = true ->
  m (reference f a x ++ rest) = None ->
  replace_all m (reference f a x ++ rest) = reference f a x ++ replace_all m rest.
Proof.
  intros Hm Hx H0.
  assert (exists c pre, opening f a = c :: pre
            /\ forallb (fun c => negb (Ascii.eqb c (initial a))) pre = true)
    as (c & pre & Ho & Hpre) by (destruct f, a; cbn; eauto).
  unfold reference in *. rewrite Ho in *. simpl in *.
  rewrite replace_all_copy by assumption. f_equal.
  rewrite !app_assoc. rewrite <- (app_assoc pre x [dq]).
  apply replace_all_quiet with (a := a); [assumption|]. now apply quiet_after.
Qed.

Lemma skipn_closed (p x : text) (c : ascii) (rest : text) :
  skipn (List.length p + List.length x + 1) (p ++ x ++ [c] ++ rest) = rest.
Proof.
  induction p as [|d p IH]; simpl; [|assumption].
  induction x as [|d x IH]; simpl; [reflexivity | assumption].
Qed.

Lemma reference_not_nil (f : form) (a : attr) (x rest : text) :
  reference f a x ++ rest <> [].
Proof. now destruct f, a. Qed.

(** The generic rule at a reference of its attribute with something after
    the slash. *)
Lemma strip_slash_reference (a : attr) (x rest : text) :
  value_ok x = true -> x <> [] ->
  strip_slash a (reference Absolute a x ++ rest)
  = reference Relative a x ++ strip_slash a rest.
Proof.
  intros Hx Hne. apply value_ok_inv in Hx as (Hq & _).
  unfold strip_slash.
  rewrite replace_all_skip
    with (out := rel_prefix a ++ x ++ [dq])
         (n := List.length (abs_prefix a) + List.length x + 1).
  - unfold reference. simpl opening. rewrite <- !app_assoc.
    now rewrite skipn_closed.
  - apply reference_not_nil.
  - lia.
  - unfold match_quoted, reference. simpl opening. rewrite <- !app_assoc.
    rewrite starts_self, skipn_length_app. simpl.
    rewrite span_not_dq_value by assumption.
    destruct x; [congruence | reflexivity].
Qed.

(** The bundler rule at a reference of its attribute whose value starts
    with the bundler directory. *)
Lemma strip_expo_reference (a : attr) (y rest : text) :
  value_ok (expo ++ y) = true ->
  strip_expo a (reference Absolute a (expo ++ y) ++ rest)
  = reference Relative a (expo ++ y) ++ strip_expo a rest.
Proof.
  intros Hx. unfold strip_expo.
  rewrite replace_all_skip
    with (out := rel_prefix a ++ expo)
         (n := List.length (abs_prefix a ++ expo)).
  - unfold reference. simpl opening. rewrite <- !app_assoc.
    do 2 f_equal.
    rewrite (app_assoc (abs_prefix a) expo), skipn_length_app.
    rewrite app_assoc.
    rewrite replace_all_quiet with (a := a).
    + now rewrite <- app_assoc.
    + apply targets_literal.
    + apply quiet_drop with (u1 := expo). rewrite app_assoc.
      now apply quiet_closed_value.
  - apply reference_not_nil.
  - now destruct a.
  - unfold match_literal, reference. simpl opening. rewrite <- !app_assoc.
    now rewrite (app_assoc (abs_prefix a) expo), starts_self.
Qed.

Lemma no_dq_not_in (p : text) : no_dq p = true -> ~ In dq p.
Proof.
  induction p as [|d p IH]; simpl; intros Hp Hin; [assumption|].
  apply andb_true_iff in Hp as [Hd Hp].
  destruct Hin as [-> | Hin]; [|now apply IH].
  rewrite Ascii.eqb_refl in Hd. discriminate.
Qed.

Lemma starts_before_quote (p x rest : text) :
  no_dq p = true -> starts p (x ++ dq :: rest) = true -> starts p x = true.
Proof.
  intros Hp H. destruct (starts_split _ _ _ H) as [Hl | (c & r & Heq & Hin)].
  - assumption.
  - injection Heq as <- _. now apply no_dq_not_in in Hin.
Qed.

(** The bundler rule leaves any other reference of its attribute alone. *)
Lemma strip_expo_elsewhere (a : attr) (x rest : text) :
  value_ok x = true -> starts expo x = false ->
  strip_expo a (reference Absolute a x ++ rest)
  = reference Absolute a x ++ strip_expo a rest.
Proof.
  intros Hx He. apply pass_keep; [apply targets_literal | assumption |].
  unfold match_literal, reference. simpl opening. rewrite <- !app_assoc.
  rewrite starts_app_same.
  destruct (starts expo (x ++ [dq] ++ rest)) eqn:E; [|reflexivity].
  apply starts_before_quote in E; [congruence | reflexivity].
Qed.

(** The generic rule leaves a reference already made relative by the bundler
    rule alone. *)
Lemma strip_slash_relative (a : attr) (y rest : text) :
  value_ok (expo ++ y) = true ->
  strip_slash a (reference Relative a (expo ++ y) ++ rest)
  = reference Relative a (expo ++ y) ++ strip_slash a rest.
Proof.
  intros Hx. apply pass_keep; [apply targets_quoted | assumption |].
  apply targets_quoted. now destruct a.
Qed.

(** The generic rule leaves a reference to the root alone: its class finds
    no character between the slash and the closing quote. *)
Lemma strip_slash_root (a : attr) (rest : text) :
  strip_slash a (reference Absolute a [] ++ rest)
  = reference Absolute a [] ++ strip_slash a rest.
Proof.
  apply pass_keep; [apply targets_quoted | reflexivity |].
  unfold match_quoted, reference. simpl opening. rewrite <- !app_assoc.
  now rewrite starts_self, skipn_length_app.
Qed.

Lemma strip_expo_text (b : attr) (t rest : text) :
  no_hit b t = true -> clear_start b rest = true ->
  strip_expo b (t ++ rest) = t ++ strip_expo b rest.
Proof. apply pass_text, targets_literal. Qed.

Lemma strip_slash_text (b : attr) (t rest : text) :
  no_hit b t = true -> clear_start b rest = true ->
  strip_slash b (t ++ rest) = t ++ strip_slash b rest.
Proof. apply pass_text, targets_quoted. Qed.

Lemma strip_expo_other (b : attr) (f : form) (a : attr) (x rest : text) :
  a <> b -> value_ok x = true ->
  strip_expo b (reference f a x ++ rest) = reference f a x ++ strip_expo b rest.
Proof. apply pass_other, targets_literal. Qed.

Lemma strip_slash_other (b : attr) (f : form) (a : attr) (x rest : text) :
  a <> b -> value_ok x = true ->
  strip_slash b (reference f a x ++ rest) = reference f a x ++ strip_slash b rest.
Proof. apply pass_other, targets_quoted. Qed.

Lemma plain_inv (t : text) :
  plain t = true -> forall b, no_hit b t = true.
Proof.
  unfold plain. intros H. apply andb_true_iff in H as [H1 H2]. now intros [].
Qed.

Lemma strip_expo_both (t : text) (a : attr) (x rest : text) :
  plain t = true -> value_ok x = true ->
  strip_expo Href (strip_expo Src (t ++ reference Absolute a x ++ rest))
  = t ++ reference (after_expo x) a x
      ++ strip_expo Href (strip_expo Src rest).
Proof.
  intros Ht Hx. pose proof (plain_inv _ Ht) as Hb. unfold after_expo.
  rewrite strip_expo_text by auto using reference_clear_start.
  destruct a.
  - destruct (starts expo x) eqn:E.
    + apply starts_inv in E as [y ->].
      rewrite strip_expo_reference by assumption.
      rewrite strip_expo_text by auto using reference_clear_start.
      now rewrite strip_expo_other by (assumption || discriminate).
    + rewrite strip_expo_elsewhere by assumption.
      rewrite strip_expo_text by auto using reference_clear_start.
      now rewrite strip_expo_other by (assumption || discriminate).
  - rewrite strip_expo_other by (assumption || discriminate).
    rewrite strip_expo_text by auto using reference_clear_start.
    destruct (starts expo x) eqn:E.
    + apply starts_inv in E as [y ->].
      now rewrite strip_expo_reference by assumption.
    + now rewrite strip_expo_elsewhere by assumption.
Qed.

(** The two generic rules at one reference, absolute or already made
    relative by the bundler rules: it ends up relative, unless nothing
    follows its slash. *)
Lemma strip_slash_both (t : text) (a : attr) (x rest : text) (f : form) :
  plain t = true -> value_ok x = true ->
  f = Absolute \/ f = after_expo x ->
  strip_slash Href (strip_slash Src (t ++ reference f a x ++ rest))
  = t ++ reference (final_form x) a x
      ++ strip_slash Href (strip_slash Src rest).
Proof.
  intros Ht Hx Hf. pose proof (plain_inv _ Ht) as Hb.
  assert (f = Absolute \/ f = Relative /\ exists y, x = expo ++ y) as Hf'.
  { destruct Hf as [-> | ->]; [now left|]. unfold after_expo.
    destruct (starts expo x) eqn:E; [right | now left].
    split; [reflexivity | now apply starts_inv]. }
  clear Hf. rewrite strip_slash_text by auto using reference_clear_start.
  destruct a.
  - destruct Hf' as [-> | (-> & y & ->)].
    + destruct x as [|c x].
      * rewrite strip_slash_root.
        rewrite strip_slash_text by auto using reference_clear_start.
        now rewrite strip_slash_other by (assumption || discriminate).
      * rewrite strip_slash_reference by (assumption || discriminate).
        rewrite strip_slash_text by auto using reference_clear_start.
        now rewrite strip_slash_other by (assumption || discriminate).
    + rewrite strip_slash_relative by assumption.
      rewrite strip_slash_text by auto using reference_clear_start.
      now rewrite strip_slash_other by (assumption || discriminate).
  - rewrite strip_slash_other by (assumption || discriminate).
    rewrite strip_slash_text by auto using reference_clear_start.
    destruct Hf' as [-> | (-> & y & ->)].
    + destruct x as [|c x].
      * now rewrite strip_slash_root.
      * now rewrite strip_slash_reference by (assumption || discriminate).
    + now rewrite strip_slash_relative by assumption.
Qed.

(** ** A reference left open at the end of the text *)

Lemma opening_clear_start (b : attr) (f : form) (a : attr) (z : text) :
  clear_start b (opening f a ++ z) = true.
Proof. now destruct b, f, a. Qed.

Lemma pass_open_keep (m : matcher) (b : attr) (f : form) (a : attr) (z : text) :
  targets b m -> no_dq z = true ->
  m (opening f a ++ z) = None ->
  replace_all m (opening f a ++ z) = opening f a ++ z.
Proof.
  intros Hm Hz H0.
  assert (exists c pre, opening f a = c :: pre
            /\ forallb (fun c => negb (Ascii.eqb c (initial b))) pre = true)
    as (c & pre & Ho & Hpre) by (destruct f, a, b; cbn; eauto).
  rewrite Ho in *. simpl in *.
  rewrite replace_all_copy by assumption. f_equal.
  rewrite <- (app_nil_r (pre ++ z)) at 1.
  rewrite replace_all_quiet with (a := b); [apply app_nil_r | assumption |].
  apply quiet_app; [now apply quiet_other_initial|].
  now apply quiet_no_dq.
Qed.

Lemma pass_open_other (m : matcher) (b : attr) (f : form) (a : attr) (z : text) :
  targets b m -> a <> b -> no_dq z = true ->
  replace_all m (opening f a ++ z) = opening f a ++ z.
Proof.
  intros Hm Hab Hz. apply pass_open_keep with (b := b); try assumption.
  apply Hm. destruct f, a, b; try reflexivity; congruence.
Qed.

Lemma strip_expo_open (a : attr) (y : text) :
  no_dq y = true ->
  strip_expo a (abs_prefix a ++ expo ++ y) = rel_prefix a ++ expo ++ y.
Proof.
  intros Hy. unfold strip_expo.
  rewrite replace_all_skip
    with (out := rel_prefix a ++ expo)
         (n := List.length (abs_prefix a ++ expo)).
  - rewrite app_assoc, skipn_length_app, <- app_assoc. do 2 f_equal.
    rewrite <- (app_nil_r y) at 1.
    rewrite replace_all_quiet with (a := a);
      [apply app_nil_r | apply targets_literal | now apply quiet_no_dq].
  - now destruct a.
  - now destruct a.
  - unfold match_literal. now rewrite app_assoc, starts_self.
Qed.

Lemma strip_slash_open_relative (a : attr) (y : text) :
  no_dq y = true ->
  strip_slash a (rel_prefix a ++ expo ++ y) = rel_prefix a ++ expo ++ y.
Proof.
  intros Hy.
  apply pass_open_keep with (b := a) (f := Relative).
  - apply targets_quoted.
  - now rewrite no_dq_app, Hy.
  - apply targets_quoted. now destruct a.
Qed.

(** Without a closing quote the generic rule does not match. *)
Lemma strip_slash_open_absolute (a : attr) (z : text) :
  no_dq z = true ->
  strip_slash a (abs_prefix a ++ z) = abs_prefix a ++ z.
Proof.
  intros Hz.
  apply pass_open_keep with (b := a) (f := Absolute);
    [apply targets_quoted | assumption |].
  unfold match_quoted. simpl opening.
  rewrite starts_self, skipn_length_app, span_not_dq_open by assumption.
  now destruct z.
Qed.

Lemma replace_all_plain (m : matcher) (b : attr) (t : text) :
  targets b m -> no_hit b t = true -> replace_all m t = t.
Proof.
  intros Hm Ht. rewrite <- (app_nil_r t) at 1.
  rewrite pass_text with (b := b); auto. apply app_nil_r.
Qed.

Lemma strip_expo_plain (b : attr) (t : text) :
  no_hit b t = true -> strip_expo b t = t.
Proof. apply replace_all_plain, targets_literal. Qed.

Lemma strip_slash_plain (b : attr) (t : text) :
  no_hit b t = true -> strip_slash b t = t.
Proof. apply replace_all_plain, targets_quoted. Qed.

(** ** Documents *)

Ltac open_side :=
  first [ assumption
        | solve [auto]
        | apply (opening_clear_start _ Absolute)
        | apply (opening_clear_start _ Relative) ].

(** The bundler rule leaves an open reference to anything else alone. *)
Lemma strip_expo_open_elsewhere (a : attr) (y : text) :
  no_dq y = true -> starts expo y = false ->
  strip_expo a (abs_prefix a ++ y) = abs_prefix a ++ y.
Proof.
  intros Hy He.
  apply pass_open_keep with (b := a) (f := Absolute);
    [apply targets_literal | assumption |].
  unfold match_literal. simpl opening. now rewrite starts_app_same, He.
Qed.

Lemma strip_expo_ending (e : ending) :
  ending_ok e = true ->
  strip_expo Href (strip_expo Src (render_ending Absolute e))
  = render_ending (ending_form e) e.
Proof.
  destruct e as [t | t a y];
    unfold render_ending, ending_ok, ending_form, open_bundler; intros H.
  - pose proof (plain_inv _ H) as Hb.
    rewrite strip_expo_plain with (b := Src) (t := t) by auto.
    now apply strip_expo_plain.
  - apply andb_true_iff in H as [Ht Hy]. pose proof (plain_inv _ Ht) as Hb.
    rewrite strip_expo_text by open_side.
    destruct a.
    + destruct (starts expo y) eqn:E.
      * apply starts_inv in E as [y' ->].
        rewrite no_dq_app in Hy. apply andb_true_iff in Hy as [_ Hy'].
        rewrite strip_expo_open by assumption.
        rewrite strip_expo_text by open_side.
        f_equal.
        apply pass_open_other with (b := Href) (f := Relative);
          [apply targets_literal | discriminate | now rewrite no_dq_app, Hy'].
      * rewrite strip_expo_open_elsewhere by assumption.
        rewrite strip_expo_text by open_side.
        f_equal.
        apply pass_open_other with (b := Href) (f := Absolute);
          [apply targets_literal | discriminate | assumption].
    + unfold strip_expo at 2.
      rewrite pass_open_other with (b := Src) (f := Absolute)
        by (apply targets_literal || discriminate || assumption).
      rewrite strip_expo_text by open_side.
      destruct (starts expo y) eqn:E.
      * apply starts_inv in E as [y' ->].
        rewrite no_dq_app in Hy. apply andb_true_iff in Hy as [_ Hy'].
        now rewrite strip_expo_open.
      * now rewrite strip_expo_open_elsewhere.
Qed.

Lemma strip_slash_ending (fe : form) (e : ending) :
  ending_ok e = true ->
  fe = Absolute \/ fe = ending_form e ->
  strip_slash Href (strip_slash Src (render_ending fe e))
  = render_ending fe e.
Proof.
  destruct e as [t | t a y];
    unfold render_ending, ending_ok, ending_form, open_bundler; intros H Hfe.
  - pose proof (plain_inv _ H) as Hb.
    rewrite strip_slash_plain with (b := Src) (t := t) by auto.
    now apply strip_slash_plain.
  - apply andb_true_iff in H as [Ht Hy]. pose proof (plain_inv _ Ht) as Hb.
    assert (fe = Absolute \/ fe = Relative /\ exists y', y = expo ++ y') as Hfe'.
    { destruct Hfe as [-> | ->]; [now left|].
      destruct (starts expo y) eqn:E; [right | now left].
      split; [reflexivity | now apply starts_inv]. }
    clear Hfe.
    assert (forall b, strip_slash b (opening fe a ++ y) = opening fe a ++ y)
      as Hkeep.
    { intros b. destruct Hfe' as [-> | (-> & y' & ->)].
      - destruct a, b.
        + now apply strip_slash_open_absolute.
        + apply pass_open_other with (b := Href) (f := Absolute);
            [apply targets_quoted | discriminate | assumption].
        + apply pass_open_other with (b := Src) (f := Absolute);
            [apply targets_quoted | discriminate | assumption].
        + now apply strip_slash_open_absolute.
      - assert (no_dq y' = true) as Hy'
            by (rewrite no_dq_app in Hy; now apply andb_true_iff in Hy as [_ ?]).
        destruct a, b.
        + now apply strip_slash_open_relative.
        + apply pass_open_other with (b := Href) (f := Relative);
            [apply targets_quoted | discriminate | assumption].
        + apply pass_open_other with (b := Src) (f := Relative);
            [apply targets_quoted | discriminate | assumption].
        + now apply strip_slash_open_relative. }
    rewrite strip_slash_text by (auto using opening_clear_start).
    rewrite Hkeep.
    rewrite strip_slash_text by (auto using opening_clear_start).
    now rewrite Hkeep.
Qed.

Lemma well_delimited_cons (l : link) (d : list link) (e : ending) :
  well_delimited (l :: d) e = true ->
  plain (before l) = true /\ value_ok (value l) = true
  /\ well_delimited d e = true.
Proof.
  unfold well_delimited. simpl forallb. intros H.
  apply andb_true_iff in H as [H He]. apply andb_true_iff in H as [Hl Hd].
  unfold link_ok in Hl. apply andb_true_iff in Hl as [Ht Hx].
  repeat split; try assumption. now rewrite Hd, He.
Qed.

(** After the two bundler rules every reference to the bundler directory is
    relative, the others are as they were. *)
Lemma strip_expo_render (d : list link) (e : ending) :
  well_delimited d e = true ->
  strip_expo Href (strip_expo Src (absolute_form d e))
  = render (fun l => after_expo (value l)) (ending_form e) d e.
Proof.
  unfold absolute_form. induction d as [|l d IH]; intros H; simpl.
  - apply strip_expo_ending. unfold well_delimited in H. now simpl in H.
  - apply well_delimited_cons in H as (Ht & Hx & Hd).
    rewrite strip_expo_both by assumption. now rewrite IH.
Qed.

(** After the two generic rules every reference with something after the
    slash is relative; the ending is as it was. *)
Lemma strip_slash_render (fl : link -> form) (fe : form) (d : list link) (e : ending) :
  (forall l, fl l = Absolute \/ fl l = after_expo (value l)) ->
  fe = Absolute \/ fe = ending_form e ->
  well_delimited d e = true ->
  strip_slash Href (strip_slash Src (render fl fe d e))
  = render (fun l => final_form (value l)) fe d e.
Proof.
  intros Hfl Hfe. induction d as [|l d IH]; intros H; simpl.
  - apply strip_slash_ending; [|assumption].
    unfold well_delimited in H. now simpl in H.
  - apply well_delimited_cons in H as (Ht & Hx & Hd).
    rewrite strip_slash_both by auto. now rewrite IH.
Qed.

Lemma rewrite_paths_render (d : list link) (e : ending) :
  well_delimited d e = true ->
  rewrite_paths (absolute_form d e) = rewritten_form d e.
Proof.
  intros H. unfold rewrite_paths. rewrite strip_expo_render by assumption.
  apply strip_slash_render; [now right | now right | assumption].
Qed.

Lemma rewrite_generic_render (d : list link) (e : ending) :
  well_delimited d e = true ->
  rewrite_generic (absolute_form d e) = generic_form d e.
Proof.
  intros H. unfold rewrite_generic.
  apply strip_slash_render; [now left | now left | assumption].
Qed.

(** ** Every content reads as a document

    Any text splits at its hits into references and an ending; the only
    condition of [well_delimited] that can fail is the one on the end of the
    values, the one that keeps references from overlapping. *)

Lemma starts_app_r (p u r : text) :
  starts p u = true -> starts p (u ++ r) = true.
Proof.
  revert u. induction p as [|a p IH]; intros u H; simpl in *; [reflexivity|].
  destruct u as [|b u]; [discriminate|]. simpl.
  apply andb_true_iff in H as [H1 H2]. rewrite H1. simpl. now apply IH.
Qed.

(** The first hit of a text, with the plain text before it. *)
Lemma first_hit (s : text) :
  plain s = true
  \/ exists t a s', s = t ++ abs_prefix a ++ s' /\ plain t = true.
Proof.
  induction s as [|c s IH]; [now left|].
  destruct (hit Src (c :: s)) eqn:Hs.
  { right. apply starts_inv in Hs as [s' Hs]. exists [], Src, s'. now split. }
  destruct (hit Href (c :: s)) eqn:Hh.
  { right. apply starts_inv in Hh as [s' Hh]. exists [], Href, s'. now split. }
  destruct IH as [Hp | (t & a & s' & -> & Hp)].
  - left. unfold plain in *. simpl. now rewrite Hs, Hh.
  - right. exists (c :: t), a, s'. split; [reflexivity|].
    unfold plain in *. simpl.
    apply andb_true_iff in Hp as [Hp1 Hp2]. rewrite Hp1, Hp2.
    assert (forall b, hit b (c :: t ++ abs_prefix a ++ s') = false ->
                      hit b (c :: t) = false) as Hcut.
    { intros b Hb. destruct (hit b (c :: t)) eqn:E; [|reflexivity].
      unfold hit in *. apply starts_app_r with (r := abs_prefix a ++ s') in E.
      simpl in E. simpl in Hb. congruence. }
    now rewrite (Hcut Src Hs), (Hcut Href Hh).
Qed.

Lemma span_not_dq_split (s : text) :
  exists x r,
    span_not_dq s = (x, r) /\ s = x ++ r /\ no_dq x = true
    /\ (r = [] \/ exists r', r = dq :: r').
Proof.
  induction s as [|c s (x & r & Hspan & Heq & Hx & Hr)]; simpl.
  - exists [], []. auto.
  - destruct (Ascii.eqb c dq) eqn:E.
    + apply Ascii.eqb_eq in E. subst c. exists [], (dq :: s).
      repeat split; eauto.
    + rewrite Hspan. exists (c :: x), r. simpl. rewrite E, Hx.
      repeat split; [now rewrite Heq | assumption].
Qed.

Lemma every_content_is_a_document (s : text) :
  exists d e,
    absolute_form d e = s
    /\ forallb delimited d = true
    /\ ending_ok e = true.
Proof.
  remember (List.length s) as n eqn:Hn.
  assert (List.length s <= n) as Hle by lia. clear Hn.
  revert s Hle. induction n as [|n IH]; intros s Hle.
  - destruct s; [|simpl in Hle; lia]. exists [], (Plain []). now repeat split.
  - destruct (first_hit s) as [Hp | (t & a & s' & -> & Hp)].
    + exists [], (Plain s). now repeat split.
    + destruct (span_not_dq_split s') as (x & r & _ & -> & Hx & [-> | [r' ->]]).
      * exists [], (Open t a x). unfold absolute_form. simpl.
        rewrite app_nil_r, Hp, Hx. now repeat split.
      * destruct (IH r') as (d & e & Hform & Hd & He).
        { rewrite !length_app in Hle. simpl in Hle. lia. }
        exists (Link t a x :: d), e. unfold absolute_form in *. simpl.
        unfold reference, delimited at 1. simpl.
        rewrite Hform, Hp, Hx, Hd, He, <- !app_assoc. now repeat split.
Qed.

(** ** Directory entries *)

Lemma assoc_put_same (x : string) (v : node) (es : list (string * node)) :
  assoc x (put_entry x v es) = Some v.
Proof.
  induction es as [|[y m] es IH]; simpl.
  - now rewrite String.eqb_refl.
  - destruct (String.eqb x y) eqn:E; simpl; rewrite E; [reflexivity | assumption].
Qed.

Lemma assoc_put_other (x y : string) (v : node) (es : list (string * node)) :
  x <> y -> assoc x (put_entry y v es) = assoc x es.
Proof.
  intros Hxy. apply String.eqb_neq in Hxy.
  induction es as [|[z m] es IH]; simpl.
  - now rewrite Hxy.
  - destruct (String.eqb y z) eqn:E; simpl.
    + apply String.eqb_eq in E. subst z. now rewrite Hxy.
    + now rewrite IH.
Qed.

Lemma assoc_del_same (x : string) (es : list (string * node)) :
  assoc x (del_entry x es) = None.
Proof.
  induction es as [|[y m] es IH]; simpl; [reflexivity|].
  destruct (String.eqb x y) eqn:E; simpl; [assumption|]. now rewrite E.
Qed.

Lemma assoc_del_other (x y : string) (es : list (string * node)) :
  x <> y -> assoc x (del_entry y es) = assoc x es.
Proof.
  intros Hxy. apply String.eqb_neq in Hxy.
  induction es as [|[z m] es IH]; simpl; [reflexivity|].
  destruct (String.eqb y z) eqn:E; simpl.
  - apply String.eqb_eq in E. subst z. now rewrite Hxy.
  - now rewrite IH.
Qed.

Lemma put_entry_fresh (x : string) (v : node) (es : list (string * node)) :
  assoc x es = None -> put_entry x v es = es ++ [(x, v)].
Proof.
  induction es as [|[y m] es IH]; simpl; intros H; [reflexivity|].
  destruct (String.eqb x y); [discriminate|]. now rewrite IH.
Qed.

Lemma put_entry_same (x : string) (v : node) (es : list (string * node)) :
  assoc x es = Some v -> put_entry x v es = es.
Proof.
  induction es as [|[y m] es IH]; simpl; intros H; [discriminate|].
  destruct (String.eqb x y) eqn:E.
  - now injection H as ->.
  - now rewrite IH.
Qed.

Lemma put_entry_twice (x : string) (v1 v2 : node) (es : list (string * node)) :
  put_entry x v2 (put_entry x v1 es) = put_entry x v2 es.
Proof.
  induction es as [|[y m] es IH]; simpl.
  - now rewrite String.eqb_refl.
  - destruct (String.eqb x y) eqn:E; simpl; rewrite E; [reflexivity|].
    now rewrite IH.
Qed.

Lemma assoc_app_fresh (x : string) (es es' : list (string * node)) :
  assoc x es = None -> assoc x (es ++ es') = assoc x es'.
Proof.
  induction es as [|[y m] es IH]; simpl; intros H; [reflexivity|].
  destruct (String.eqb x y); [discriminate | now apply IH].
Qed.

(** ** Paths in the tree *)

Lemma get_join (dir : path) (x : string) (n : node) (es : list (string * node)) :
  get dir n = Some (Dir es) -> get (join dir x) n = assoc x es.
Proof.
  unfold join. revert n. induction dir as [|y dir IH]; intros n H; simpl in *.
  - injection H as ->. now destruct (assoc x es).
  - destruct n as [|top]; [discriminate|].
    destruct (assoc y top) as [c|]; [|discriminate]. now apply IH.
Qed.


Lemma set_at_cons (x y : string) (p : path) (v : node) (top : list (string * node)) :
  set_at (x :: y :: p) v (Dir top)
  = match assoc x top with
    | Some c => Dir (put_entry x (set_at (y :: p) v c) top)
    | None => Dir top
    end.
Proof. reflexivity. Qed.

(** Setting below a directory is setting the directory with one more
    entry. *)
Lemma set_at_join (dir : path) (x : string) (v n : node) (es : list (string * node)) :
  get dir n = Some (Dir es) ->
  set_at (join dir x) v n = set_at dir (Dir (put_entry x v es)) n.
Proof.
  unfold join. revert n. induction dir as [|y dir IH]; intros n H.
  - simpl in H. injection H as ->. reflexivity.
  - simpl in H. destruct n as [|top]; [discriminate|].
    destruct (assoc y top) as [c|] eqn:Ey; [|discriminate].
    specialize (IH _ H).
    destruct dir as [|z dir].
    + simpl in H. injection H as ->. simpl. now rewrite Ey.
    + change ((y :: z :: dir) ++ [x]) with (y :: z :: (dir ++ [x])).
      rewrite !set_at_cons, Ey. f_equal. f_equal. exact IH.
Qed.

Lemma get_set_at (p : path) (v n old : node) :
  get p n = Some old -> get p (set_at p v n) = Some v.
Proof.
  revert n. induction p as [|x p IH]; intros n H; [reflexivity|].
  simpl in H. destruct n as [|top]; [discriminate|].
  destruct (assoc x top) as [c|] eqn:Ex; [|discriminate].
  destruct p as [|y p].
  - simpl. now rewrite assoc_put_same.
  - rewrite set_at_cons, Ex.
    change (get (x :: y :: p) (Dir (put_entry x (set_at (y :: p) v c) top)))
      with (match assoc x (put_entry x (set_at (y :: p) v c) top) with
            | Some c' => get (y :: p) c'
            | None => None
            end).
    rewrite assoc_put_same. now apply IH.
Qed.

Lemma set_at_twice (p : path) (v1 v2 n old : node) :
  get p n = Some old -> set_at p v2 (set_at p v1 n) = set_at p v2 n.
Proof.
  revert n. induction p as [|x p IH]; intros n H; [reflexivity|].
  simpl in H. destruct n as [|top]; [discriminate|].
  destruct (assoc x top) as [c|] eqn:Ex; [|discriminate].
  destruct p as [|y p].
  - simpl. now rewrite put_entry_twice.
  - rewrite !set_at_cons, Ex. rewrite set_at_cons, assoc_put_same.
    rewrite put_entry_twice. f_equal. f_equal. now apply IH.
Qed.

Lemma set_at_same (p : path) (n v : node) :
  get p n = Some v -> set_at p v n = n.
Proof.
  revert n. induction p as [|x p IH]; intros n H.
  - simpl in H. now injection H as ->.
  - simpl in H. destruct n as [|top]; [discriminate|].
    destruct (assoc x top) as [c|] eqn:Ex; [|discriminate].
    destruct p as [|y p].
    + simpl in H. injection H as ->. simpl. now rewrite put_entry_same.
    + rewrite set_at_cons, Ex. rewrite IH by assumption.
      now rewrite put_entry_same.
Qed.

(** Paths that part at their first name do not see each other. *)
Lemma get_set_at_apart (x y : string) (p q : path) (v n : node) :
  x <> y -> get (x :: p) (set_at (y :: q) v n) = get (x :: p) n.
Proof.
  intros Hxy. destruct n as [|top]; [now destruct q|].
  destruct q as [|z q].
  - simpl. now rewrite assoc_put_other.
  - rewrite set_at_cons. destruct (assoc y top) as [c|]; [|reflexivity].
    simpl. now rewrite assoc_put_other.
Qed.

(** ** Running the [fs] calls *)

Lemma bind_returned {A B} (c : M A) (k : A -> M B) (w w' : world) (a : A) :
  c w = Returned a w' -> bind c k w = k a w'.
Proof. intros H. unfold bind. now rewrite H. Qed.

Lemma mkdirp_exists (full p : path) (n : node) (es : list (string * node)) :
  get p n = Some (Dir es) -> mkdirp full p n = inr n.
Proof.
  revert n. induction p as [|x p IH]; intros n H; simpl in H.
  - injection H as ->. reflexivity.
  - destruct n as [|top]; [discriminate|].
    destruct (assoc x top) as [c|] eqn:Ex; [|discriminate].
    simpl. rewrite Ex, (IH _ H). now rewrite put_entry_same.
Qed.

Lemma mkdirp_new (full dir : path) (x : string) (n : node) (es : list (string * node)) :
  get dir n = Some (Dir es) -> assoc x es = None ->
  mkdirp full (join dir x) n = inr (set_at (join dir x) (Dir []) n).
Proof.
  unfold join. revert n. induction dir as [|y dir IH]; intros n H Hx; simpl in H.
  - injection H as ->. simpl. now rewrite Hx.
  - destruct n as [|top]; [discriminate|].
    destruct (assoc y top) as [c|] eqn:Ey; [|discriminate].
    simpl mkdirp. rewrite Ey, (IH _ H Hx).
    destruct (dir ++ [x]) as [|z r] eqn:E; [now destruct dir|].
    change ((y :: dir) ++ [x]) with (y :: (dir ++ [x])). rewrite E.
    now rewrite set_at_cons, Ey.
Qed.

Lemma set_at_twice_join (dir : path) (x : string) (v1 v2 n : node) (es : list (string * node)) :
  get dir n = Some (Dir es) ->
  set_at (join dir x) v2 (set_at (join dir x) v1 n) = set_at (join dir x) v2 n.
Proof.
  intros H.
  rewrite set_at_join with (v := v1) (es := es) by assumption.
  rewrite set_at_join with (es := put_entry x v1 es)
    by (eapply get_set_at; eassumption).
  rewrite put_entry_twice, set_at_twice with (old := Dir es) by assumption.
  now rewrite <- set_at_join.
Qed.

Lemma get_set_at_join (dir : path) (x : string) (v n : node) (es : list (string * node)) :
  get dir n = Some (Dir es) ->
  get (join dir x) (set_at (join dir x) v n) = Some v.
Proof.
  intros H. rewrite set_at_join with (es := es) by assumption.
  rewrite get_join with (es := put_entry x v es)
    by (eapply get_set_at; eassumption).
  apply assoc_put_same.
Qed.

Lemma write_node_join (dir : path) (x : string) (d : text) (n : node) (es : list (string * node)) :
  get dir n = Some (Dir es) ->
  (forall l, assoc x es <> Some (Dir l)) ->
  write_node (join dir x) d n = inr (set_at (join dir x) (File d) n).
Proof.
  intros H Hx. unfold write_node, join.
  destruct (dir ++ [x]) as [|z r] eqn:E; [now destruct dir|].
  rewrite <- E, removelast_last, last_last, H.
  destruct (assoc x es) as [[|l]|]; try reflexivity. now destruct (Hx l).
Qed.

(** ** The recursive copy *)

Lemma apart_join (src dest : path) (x : string) :
  apart src dest -> apart (join src x) (join dest x).
Proof. destruct src, dest; simpl; auto. Qed.

Lemma get_apart (src dest : path) (v n : node) :
  apart src dest -> get src (set_at dest v n) = get src n.
Proof.
  destruct src as [|s0 src], dest as [|d0 dest]; simpl; try contradiction.
  intros H. now apply get_set_at_apart.
Qed.

Lemma mkdirSync_ready (dest : path) (n : node) (log : list (level * list piece)) :
  ready dest n ->
  mkdirSync dest (World n log) = Returned tt (World (set_at dest (Dir []) n) log)
  /\ get dest (set_at dest (Dir []) n) = Some (Dir [])
  /\ forall v, set_at dest v (set_at dest (Dir []) n) = set_at dest v n.
Proof.
  unfold mkdirSync, update. simpl.
  intros [H | (dir & x & es & -> & Hd & Hx)].
  - rewrite (mkdirp_exists _ _ _ H), (set_at_same _ _ H).
    repeat split; assumption || reflexivity.
  - rewrite (mkdirp_new _ _ _ _ Hd Hx). repeat split.
    + eapply get_set_at_join; eassumption.
    + intros v. eapply set_at_twice_join; eassumption.
Qed.

Lemma copyFileSync_run (src dest : path) (d : text) (n n' : node) (log : list (level * list piece)) :
  get src n = Some (File d) -> write_node dest d n = inr n' ->
  copyFileSync src dest (World n log) = Returned tt (World n' log).
Proof.
  intros Hs Hw. unfold copyFileSync, bind, readFileSync, writeFileSync, lift, update.
  simpl. rewrite Hs. simpl. now rewrite Hw.
Qed.

Lemma distinct_fresh (x : string) (c : node) (acc rest : list (string * node)) :
  distinct (map fst (acc ++ (x, c) :: rest)) = true -> assoc x acc = None.
Proof.
  induction acc as [|[y m] acc IH]; simpl; intros H; [reflexivity|].
  apply andb_true_iff in H as [Hy Hd].
  destruct (String.eqb x y) eqn:E; [|now apply IH].
  apply String.eqb_eq in E. subst y. apply negb_true_iff in Hy.
  assert (existsb (String.eqb x) (map fst (acc ++ (x, c) :: rest)) = true);
    [|congruence].
  apply existsb_exists. exists x. split; [|apply String.eqb_refl].
  rewrite map_app. apply in_or_app. right. now left.
Qed.

(** The loop over the entries of the source, for any way [rec] of copying
    the subdirectories that does what the copy is to do. *)
Lemma copy_loop (rec : path -> path -> M unit) (f : nat)
    (src dest : path) (es old : list (string * node)) (n1 : node) :
  (forall s d ces n log,
      apart s d -> depth (Dir ces) <= f -> well_formed (Dir ces) = true ->
      get s n = Some (Dir ces) -> ready d n ->
      rec s d (World n log) = Returned tt (World (set_at d (Dir ces) n) log)) ->
  apart src dest ->
  distinct (map fst es) = true ->
  (forall e, In e es -> well_formed (snd e) = true /\ depth (snd e) <= f) ->
  get src n1 = Some (Dir es) ->
  get dest n1 = Some (Dir old) ->
  forall rest acc log,
    es = acc ++ rest ->
    for_each (map dirent rest)
      (fun entry =>
         if snd entry
         then rec (join src (fst entry)) (join dest (fst entry))
         else copyFileSync (join src (fst entry)) (join dest (fst entry)))
      (World (set_at dest (Dir acc) n1) log)
    = Returned tt (World (set_at dest (Dir (acc ++ rest)) n1) log).
Proof.
  intros Hrec Hap Hnd Hch Hsrc Hdest.
  induction rest as [|[x child] rest IH]; intros acc log Hes.
  - now rewrite app_nil_r.
  - assert (assoc x acc = None) as Hfresh
        by (rewrite Hes in Hnd; eapply distinct_fresh; eassumption).
    assert (get dest (set_at dest (Dir acc) n1) = Some (Dir acc)) as Hd
        by (eapply get_set_at; eassumption).
    assert (get (join src x) (set_at dest (Dir acc) n1) = Some child) as Hs.
    { rewrite get_join with (es := es) by now rewrite get_apart.
      rewrite Hes, assoc_app_fresh by assumption.
      simpl. now rewrite String.eqb_refl. }
    assert (forall v, set_at (join dest x) v (set_at dest (Dir acc) n1)
                      = set_at dest (Dir (acc ++ [(x, v)])) n1) as Hset.
    { intros v. rewrite set_at_join with (es := acc) by assumption.
      rewrite put_entry_fresh by assumption.
      eapply set_at_twice; eassumption. }
    assert (In (x, child) es) as Hin
        by (rewrite Hes; apply in_or_app; right; now left).
    destruct (Hch _ Hin) as [Hwf Hdepth]. simpl in Hwf, Hdepth.
    specialize (IH (acc ++ [(x, child)]) log).
    rewrite <- app_assoc in IH. simpl in IH. specialize (IH Hes).
    simpl map. simpl for_each. unfold dirent at 1. simpl fst. simpl snd.
    destruct child as [d | ces].
    + erewrite bind_returned; [exact IH|].
      erewrite copyFileSync_run; [rewrite <- Hset; reflexivity | exact Hs |].
      eapply write_node_join; [eassumption|]. rewrite Hfresh. discriminate.
    + erewrite bind_returned; [exact IH|].
      rewrite Hrec with (ces := ces); auto using apart_join.
      * now rewrite Hset.
      * right. exists dest, x, acc. auto.
Qed.

Lemma well_formed_dir (es : list (string * node)) :
  well_formed (Dir es) = true ->
  distinct (map fst es) = true
  /\ forall e, In e es -> well_formed (snd e) = true.
Proof.
  simpl. intros H. apply andb_true_iff in H as [Hd Hc]. split; [assumption|].
  intros e He. rewrite forallb_forall in Hc. now apply Hc.
Qed.

Lemma depth_child (es : list (string * node)) (e : string * node) :
  In e es -> depth (snd e) < depth (Dir es).
Proof.
  simpl. induction es as [|e' es IH]; simpl; intros H; [contradiction|].
  destruct H as [-> | H]; [lia|]. specialize (IH H). lia.
Qed.

Lemma readdirSync_run (p : path) (n : node) (es : list (string * node)) (log : list (level * list piece)) :
  get p n = Some (Dir es) ->
  readdirSync p (World n log) = Returned (map dirent es) (World n log).
Proof.
  intros H. unfold readdirSync, lift. simpl. now rewrite H.
Qed.

(** With a bound above the depth of the source, the copy returns, and the
    destination is then the source tree; nothing else has changed. *)
Lemma copyDirectory_spec (fuel : nat) :
  forall src dest es n log,
    apart src dest -> depth (Dir es) <= fuel -> well_formed (Dir es) = true ->
    get src n = Some (Dir es) -> ready dest n ->
    copyDirectory fuel src dest (World n log)
    = Returned tt (World (set_at dest (Dir es) n) log).
Proof.
  induction fuel as [|f IH]; intros src dest es n log Hap Hdepth Hwf Hsrc Hready.
  - simpl in Hdepth. lia.
  - destruct (mkdirSync_ready log Hready) as (Hmk & Hget & Hset).
    destruct (well_formed_dir _ Hwf) as [Hnd Hch].
    simpl copyDirectory.
    erewrite bind_returned by exact Hmk.
    erewrite bind_returned
      by (apply readdirSync_run; rewrite get_apart by assumption; exact Hsrc).
    rewrite <- (Hset (Dir es)), <- (Hset (Dir [])) at 1.
    apply copy_loop with (f := f) (es := es) (old := []) (acc := []);
      try assumption; try reflexivity.
    + intros e He. split; [now apply Hch|].
      pose proof (depth_child _ _ He). lia.
    + now rewrite get_apart.
Qed.

(** ** Staging *)

Lemma existsSync_run (p : path) (n : node) (log : list (level * list piece)) :
  existsSync p (World n log)
  = Returned (match get p n with Some _ => true | None => false end)
      (World n log).
Proof. reflexivity. Qed.

(** [copyDistFiles] on a project with a [dist] directory: whatever the
    staging directory was, it is the [dist] tree afterwards, and nothing
    else has changed. *)
Lemma copyDistFiles_spec (fuel : nat) (staging label : string)
    (top es : list (string * node)) (log : list (level * list piece)) :
  staging <> "dist"%string ->
  get DIST_DIR (Dir top) = Some (Dir es) ->
  well_formed (Dir es) = true ->
  depth (Dir es) <= fuel ->
  exists n',
    copyDistFiles fuel [staging] label (World (Dir top) log)
    = Returned tt (World n' (log ++ [copied_message label]))
    /\ get [staging] n' = Some (Dir es)
    /\ forall x p, x <> staging -> get (x :: p) n' = get (x :: p) (Dir top).
Proof.
  intros Hname Hdist Hwf Hdepth.
  set (top1 := match assoc staging top with
               | Some _ => del_entry staging top
               | None => top
               end).
  assert (assoc staging top1 = None) as Hfresh.
  { unfold top1. destruct (assoc staging top) eqn:E;
      [apply assoc_del_same | assumption]. }
  assert (forall x p, x <> staging -> get (x :: p) (Dir top1) = get (x :: p) (Dir top))
    as Hkeep.
  { intros x p Hx. unfold top1. destruct (assoc staging top); [|reflexivity].
    simpl. now rewrite assoc_del_other. }
  assert (ready [staging] (Dir top1)) as Hready.
  { right. exists [], staging, top1. auto. }
  destruct (mkdirSync_ready log Hready) as (Hmk & Hget & Hset).
  exists (set_at [staging] (Dir es) (Dir top1)). split; [|split].
  - unfold copyDistFiles.
    erewrite bind_returned by apply existsSync_run.
    rewrite Hdist. simpl negb. cbv iota.
    erewrite bind_returned by reflexivity.
    erewrite bind_returned by apply existsSync_run.
    erewrite bind_returned with (w' := World (Dir top1) log).
    2:{ unfold top1. cbn [get]. destruct (assoc staging top); reflexivity. }
    erewrite bind_returned by exact Hmk.
    erewrite bind_returned.
    2:{ apply copyDirectory_spec with (es := es); try assumption.
        - exact (not_eq_sym Hname).
        - unfold DIST_DIR. rewrite get_set_at_apart by exact (not_eq_sym Hname).
          rewrite Hkeep by exact (not_eq_sym Hname). exact Hdist.
        - now left. }
    now rewrite Hset.
  - simpl. now rewrite assoc_put_same.
  - intros x p Hx. rewrite get_set_at_apart by assumption. now apply Hkeep.
Qed.

Lemma get_below (x : string) (rel : path) (n v : node) :
  get [x] n = Some v -> get (x :: rel) n = get rel v.
Proof.
  simpl. destruct n as [|top]; [discriminate|].
  destruct (assoc x top); [|discriminate]. now intros [= ->].
Qed.

(** ** The entry file *)


(** Without an entry file the step only warns. *)
Lemma fixIndexHtmlPaths_missing (STAGING : path) (w : world) :
  get (join STAGING "index.html") (files w) = None ->
  fixIndexHtmlPaths STAGING w
  = Returned tt
      (World (files w)
             (console w ++ warn_lines [lit "⚠ index.html not found, skipping path fixes"])).
Proof.
  intros H. destruct w as [n log]. simpl in H.
  unfold fixIndexHtmlPaths.
  erewrite bind_returned by apply existsSync_run.
  rewrite H. reflexivity.
Qed.





Lemma render_ending_differs (d : list link) (t : text) (a : attr) (y : text) :
  starts expo y = true ->
  generic_form d (Open t a y) <> rewritten_form d (Open t a y).
Proof.
  intros Hy. unfold generic_form, rewritten_form, ending_form, open_bundler.
  rewrite Hy. apply starts_inv in Hy as [y' ->].
  induction d as [|l d IH]; simpl; intros H.
  - apply app_inv_head in H. destruct a; discriminate H.
  - apply app_inv_head in H. unfold reference in H.
    rewrite <- !app_assoc in H. do 3 apply app_inv_head in H. now apply IH.
Qed.

(** C5 (as amended). On a well-delimited document the two generic rules
    alone give the result of the full two-stage rewrite exactly when the
    document does not end with a bundler reference left open (one whose
    closing quote is missing): there the bundler rules strip a slash that
    the generic rules leave. *)
Theorem generic_rules_alone_agree (d : list link) (e : ending) :
  well_delimited d e = true ->
  (rewrite_generic (absolute_form d e) = rewrite_paths (absolute_form d e)
   <-> open_bundler e = false).
Proof.
  intros H. rewrite rewrite_generic_render, rewrite_paths_render by assumption.
  split.
  - intros Heq. destruct e as [t | t a y]; [reflexivity|].
    unfold open_bundler. destruct (starts expo y) eqn:E; [|reflexivity].
    now apply (render_ending_differs d t a) in E.
  - intros He. unfold generic_form, rewritten_form, ending_form.
    now rewrite He.
Qed.

Lemma generic_rules_alone_agree_witness :
  well_delimited sample_document (Plain (lit "/>")) = true
  /\ (rewrite_generic (absolute_form sample_document (Plain (lit "/>")))
      = rewrite_paths (absolute_form sample_document (Plain (lit "/>")))
      <-> open_bundler (Plain (lit "/>")) = false).
Proof.
  split; [reflexivity|].
  apply (generic_rules_alone_agree sample_document (Plain (lit "/>"))).
  reflexivity.
Defined.

(** C5, counterexample: on [src=Q/_expo/app.js], a bundler reference whose
    closing quote is missing, the generic rules change nothing while the
    full rewrite strips the slash. *)
Lemma generic_rules_miss_open_reference :
  rewrite_generic (abs_prefix Src ++ lit "_expo/app.js")
  = abs_prefix Src ++ lit "_expo/app.js"
  /\ rewrite_paths (abs_prefix Src ++ lit "_expo/app.js")
     = rel_prefix Src ++ lit "_expo/app.js"
  /\ rewrite_generic (abs_prefix Src ++ lit "_expo/app.js")
     <> rewrite_paths (abs_prefix Src ++ lit "_expo/app.js").
Proof.
  split; [reflexivity | split; [reflexivity | discriminate]].
Qed.

(** ** The copy step and the staging directory *)

Lemma staging_name (STAGING : path) :
  STAGING = Tizen.TIZEN_DIR \/ STAGING = WebOS.WEBOS_DIR ->
  exists name, STAGING = [name] /\ name <> "dist"%string.
Proof.
  intros [-> | ->]; eexists; (split; [reflexivity | discriminate]).
Qed.

(** C3. For every well-formed [dist] tree, however nested, the recursive
    copy into the freshly created (empty) staging directory of either
    exporter returns once the recursion bound covers the depth of the tree,
    and then every relative path leads in the staging directory to exactly
    what it leads to in [dist]: the same file with the same bytes, the same
    directory, or nothing.  The [dist] tree itself is untouched. *)
Theorem copyDirectory_copies_the_tree
    (fuel : nat) (STAGING : path) (n : node) (es : list (string * node))
    (log : list (level * list piece)) :
  STAGING = Tizen.TIZEN_DIR \/ STAGING = WebOS.WEBOS_DIR ->
  get DIST_DIR n = Some (Dir es) ->
  well_formed (Dir es) = true ->
  depth (Dir es) <= fuel ->
  get STAGING n = Some (Dir []) ->
  exists n',
    copyDirectory fuel DIST_DIR STAGING (World n log) = Returned tt (World n' log)
    /\ (forall rel, get (STAGING ++ rel) n' = get (DIST_DIR ++ rel) n)
    /\ (forall rel, get (DIST_DIR ++ rel) n' = get (DIST_DIR ++ rel) n).
Proof.
  intros HS Hdist Hwf Hdepth Hempty.
  destruct (staging_name HS) as (name & -> & Hname).
  exists (set_at [name] (Dir es) n). split; [|split].
  - apply copyDirectory_spec; try assumption.
    + exact (not_eq_sym Hname).
    + now left.
  - intros rel. simpl app.
    rewrite get_below with (v := Dir es)
      by (eapply get_set_at; eassumption).
    symmetry. now apply get_below.
  - intros rel. apply get_set_at_apart. exact (not_eq_sym Hname).
Qed.

Lemma copyDirectory_copies_the_tree_witness :
  exists n',
    copyDirectory 3 DIST_DIR Tizen.TIZEN_DIR
      (World (Dir [ ("dist"%string, Dir sample_dist);
                    ("tizen-build"%string, Dir []) ]) [])
    = Returned tt (World n' [])
    /\ (forall rel,
           get (Tizen.TIZEN_DIR ++ rel) n'
           = get (DIST_DIR ++ rel)
               (Dir [ ("dist"%string, Dir sample_dist);
                      ("tizen-build"%string, Dir []) ]))
    /\ (forall rel,
           get (DIST_DIR ++ rel) n'
           = get (DIST_DIR ++ rel)
               (Dir [ ("dist"%string, Dir sample_dist);
                      ("tizen-build"%string, Dir []) ])).
Proof.
  apply (@copyDirectory_copies_the_tree 3 Tizen.TIZEN_DIR
           (Dir [ ("dist"%string, Dir sample_dist);
                  ("tizen-build"%string, Dir []) ])
           sample_dist []).
  - now left.
  - reflexivity.
  - reflexivity.
  - simpl. lia.
  - reflexivity.
Defined.

(** C4. Whatever the project holds besides [dist] -- in particular whatever
    a previous run left in the staging directory, or no staging directory at
    all -- the copy-staging-files step of either exporter returns with the
    staging directory equal to the [dist] tree: two projects with the same
    [dist] end with the same staging directory, and everything outside the
    staging directory is as it was. *)
Theorem copyDistFiles_replaces_staging
    (fuel : nat) (STAGING : path) (label : string)
    (top top' es : list (string * node)) (log log' : list (level * list piece)) :
  STAGING = Tizen.TIZEN_DIR \/ STAGING = WebOS.WEBOS_DIR ->
  get DIST_DIR (Dir top) = Some (Dir es) ->
  get DIST_DIR (Dir top') = Some (Dir es) ->
  well_formed (Dir es) = true ->
  depth (Dir es) <= fuel ->
  exists n n',
    copyDistFiles fuel STAGING label (World (Dir top) log)
    = Returned tt (World n (log ++ [copied_message label]))
    /\ copyDistFiles fuel STAGING label (World (Dir top') log')
       = Returned tt (World n' (log' ++ [copied_message label]))
    /\ get STAGING n = Some (Dir es)
    /\ get STAGING n' = Some (Dir es)
    /\ (forall x p, [x] <> STAGING -> get (x :: p) n = get (x :: p) (Dir top)).
Proof.
  intros HS Hdist Hdist' Hwf Hdepth.
  destruct (staging_name HS) as (name & -> & Hname).
  destruct (@copyDistFiles_spec fuel name label top es log
              Hname Hdist Hwf Hdepth)
    as (n & Hrun & Hget & Hrest).
  destruct (@copyDistFiles_spec fuel name label top' es log'
              Hname Hdist' Hwf Hdepth)
    as (n' & Hrun' & Hget' & _).
  exists n, n'. repeat split; try assumption.
  intros x p Hx. apply Hrest. congruence.
Qed.

Lemma copyDistFiles_replaces_staging_witness :
  exists n n',
    copyDistFiles 3 Tizen.TIZEN_DIR "Tizen"
      (World (Dir [ ("dist"%string, Dir sample_dist);
                    ("tizen-build"%string,
                     Dir [ ("stale.js"%string, File (lit "old")) ]) ]) [])
    = Returned tt (World n ([] ++ [copied_message "Tizen"]))
    /\ copyDistFiles 3 Tizen.TIZEN_DIR "Tizen"
         (World (Dir [ ("dist"%string, Dir sample_dist) ]) [])
       = Returned tt (World n' ([] ++ [copied_message "Tizen"]))
    /\ get Tizen.TIZEN_DIR n = Some (Dir sample_dist)
    /\ get Tizen.TIZEN_DIR n' = Some (Dir sample_dist)
    /\ (forall x p, [x] <> Tizen.TIZEN_DIR ->
          get (x :: p) n
          = get (x :: p)
              (Dir [ ("dist"%string, Dir sample_dist);
                     ("tizen-build"%string,
                      Dir [ ("stale.js"%string, File (lit "old")) ]) ])).
Proof.
  apply (@copyDistFiles_replaces_staging 3 Tizen.TIZEN_DIR "Tizen"
           [ ("dist"%string, Dir sample_dist);
             ("tizen-build"%string,
              Dir [ ("stale.js"%string, File (lit "old")) ]) ]
           [ ("dist"%string, Dir sample_dist) ]
           sample_dist [] []).
  - now left.
  - reflexivity.
  - reflexivity.
  - reflexivity.
  - simpl. lia.
Defined.

(** ** Control flow of the scripts *)


Lemma bind_assoc {A B C} (c : M A) (k : A -> M B) (k' : B -> M C) (w : world) :
  bind (bind c k) k' w = bind c (fun a => bind (k a) k') w.
Proof. unfold bind. now destruct (c w). Qed.

Lemma for_each_print (l : level) (lines : list text) (w : world) :
  for_each lines (fun t => print l [Text t]) w
  = Returned tt
      (World (files w) (console w ++ map (fun t => (l, [Text t])) lines)).
Proof.
  revert w. induction lines as [|t lines IH]; intros [n log]; simpl.
  - now rewrite app_nil_r.
  - unfold bind, print at 1. simpl. rewrite IH. simpl.
    now rewrite <- app_assoc.
Qed.

(** Reading the metadata: the parsed value, or the error message and
    exit status 1; the files are not touched. *)
Lemma read_package_run (E : env) (w : world) :
  read_package E w
  = match get PACKAGE_JSON_PATH (files w) with
    | Some (File raw) =>
      match JSON_parse E raw with
      | Some j => Returned j w
      | None => Exited 1 (World (files w) (console w ++ [package_error SyntaxError]))
      end
    | Some (Dir _) =>
      Exited 1 (World (files w)
                  (console w ++ [package_error (FsError EISDIR PACKAGE_JSON_PATH)]))
    | None =>
      Exited 1 (World (files w)
                  (console w ++ [package_error (FsError ENOENT PACKAGE_JSON_PATH)]))
    end.
Proof.
  destruct w as [n log].
  unfold read_package, try_catch, bind, readFileSync, lift. simpl files.
  destruct (get PACKAGE_JSON_PATH n) as [[raw | l] |]; try reflexivity.
  destruct (JSON_parse E raw); reflexivity.
Qed.

Lemma configured_version_run (packageJson : json) (w : world) :
  configured_version packageJson w
  = match version_of packageJson with
    | inr v => Returned (or_else v (JString (lit "1.0.0"))) w
    | inl e => Thrown e w
    end.
Proof.
  unfold configured_version, lift. now destruct (version_of packageJson).
Qed.




(** The scripts, step by step: the metadata, the configured version, then
    [main]. *)
Lemma tizen_script_run (E : env) (fuel : nat) (w : world) :
  Tizen.script E fuel w
  = match read_package E w with
    | Returned j w' =>
      match version_of j with
      | inr v =>
        Tizen.main E (Tizen.TIZEN_CONFIG (or_else v (JString (lit "1.0.0")))) fuel w'
      | inl e => Thrown e w'
      end
    | Thrown e w' => Thrown e w'
    | Exited code w' => Exited code w'
    | Unfinished => Unfinished
    end.
Proof.
  unfold Tizen.script, bind. destruct (read_package E w); try reflexivity.
  rewrite configured_version_run. now destruct (version_of a).
Qed.

Lemma webos_script_run (E : env) (fuel : nat) (w : world) :
  WebOS.script E fuel w
  = match read_package E w with
    | Returned j w' =>
      match version_of j with
      | inr v =>
        WebOS.main E (WebOS.WEBOS_CONFIG (or_else v (JString (lit "1.0.0")))) fuel w'
      | inl e => Thrown e w'
      end
    | Thrown e w' => Thrown e w'
    | Exited code w' => Exited code w'
    | Unfinished => Unfinished
    end.
Proof.
  unfold WebOS.script, bind. destruct (read_package E w); try reflexivity.
  rewrite configured_version_run. now destruct (version_of a).
Qed.



(** C9. For every state of the files in which [package.json] is not a file
    whose content parses as JSON (it is absent, a directory, or unparseable),
    either exporter prints the error and ends with exit status 1 before
    [main] starts: the files, the staging directory included, are exactly as
    they were and nothing else is printed. *)
Theorem unreadable_package_exits_first
    (E : env) (fuel : nat) (w : world) :
  (forall raw, get PACKAGE_JSON_PATH (files w) = Some (File raw) ->
               JSON_parse E raw = None) ->
  exists e,
    Tizen.script E fuel w
    = Exited 1 (World (files w) (console w ++ [package_error e]))
    /\ WebOS.script E fuel w
       = Exited 1 (World (files w) (console w ++ [package_error e])).
Proof.
  intros H. rewrite tizen_script_run, webos_script_run, read_package_run.
  destruct (get PACKAGE_JSON_PATH (files w)) as [[raw | l] |].
  - rewrite (H raw eq_refl). now exists SyntaxError.
  - now exists (FsError EISDIR PACKAGE_JSON_PATH).
  - now exists (FsError ENOENT PACKAGE_JSON_PATH).
Qed.

Lemma unreadable_package_exits_first_witness :
  exists e,
    Tizen.script silent_env 3
      (World (Dir [ ("package.json"%string, File (lit "version: 1"));
                    ("dist"%string, Dir sample_dist);
                    ("tizen-build"%string, Dir [ ("stale.js"%string, File (lit "old")) ]) ]) [])
    = Exited 1
        (World (Dir [ ("package.json"%string, File (lit "version: 1"));
                      ("dist"%string, Dir sample_dist);
                      ("tizen-build"%string, Dir [ ("stale.js"%string, File (lit "old")) ]) ])
               ([] ++ [package_error e]))
    /\ WebOS.script silent_env 3
         (World (Dir [ ("package.json"%string, File (lit "version: 1"));
                       ("dist"%string, Dir sample_dist);
                       ("tizen-build"%string, Dir [ ("stale.js"%string, File (lit "old")) ]) ]) [])
       = Exited 1
           (World (Dir [ ("package.json"%string, File (lit "version: 1"));
                         ("dist"%string, Dir sample_dist);
                         ("tizen-build"%string, Dir [ ("stale.js"%string, File (lit "old")) ]) ])
                  ([] ++ [package_error e])).
Proof.
  apply (@unreadable_package_exits_first silent_env 3
           (World (Dir [ ("package.json"%string, File (lit "version: 1"));
                         ("dist"%string, Dir sample_dist);
                         ("tizen-build"%string, Dir [ ("stale.js"%string, File (lit "old")) ]) ]) [])).
  intros raw H. injection H as <-. reflexivity.
Defined.

(** ** The version in the descriptors *)









(** C10. For every metadata record whose [version] field is present but
    falsy in JavaScript -- the empty string, zero, [false] or [null] -- the
    configured version of both exporters is the fallback string 1.0.0, not
    the value given, and the descriptors are those of 1.0.0.  The empty
    string is such a value. *)
Theorem falsy_version_falls_back
    (E : env) (fields : list (string * json)) (v : json) (w : world) :
  field "version" fields = Some v ->
  truthy (Some v) = false ->
  configured_version (JObject fields) w = Returned (JString (lit "1.0.0")) w
  /\ Tizen.version (Tizen.TIZEN_CONFIG (or_else (Some v) (JString (lit "1.0.0"))))
     = JString (lit "1.0.0")
  /\ WebOS.version (WebOS.WEBOS_CONFIG (or_else (Some v) (JString (lit "1.0.0"))))
     = JString (lit "1.0.0")
  /\ Tizen.configXml E (Tizen.TIZEN_CONFIG (or_else (Some v) (JString (lit "1.0.0"))))
     = Tizen.xml_head (Tizen.TIZEN_CONFIG (JString (lit "1.0.0")))
       ++ lit "1.0.0"
       ++ Tizen.xml_tail (Tizen.TIZEN_CONFIG (JString (lit "1.0.0")))
  /\ stringify E [] (WebOS.appInfo (WebOS.WEBOS_CONFIG (or_else (Some v) (JString (lit "1.0.0")))))
     = appinfo_head ++ q (lit "1.0.0") ++ appinfo_tail
  /\ truthy (Some (JString [])) = false.
Proof.
  intros Hf Hv.
  assert (or_else (Some v) (JString (lit "1.0.0")) = JString (lit "1.0.0")) as ->
    by (unfold or_else; now rewrite Hv).
  split; [|split; [|split; [|split; [|split]]]]; try reflexivity.
  - rewrite configured_version_run. simpl version_of. rewrite Hf.
    unfold or_else. now rewrite Hv.
Qed.

Lemma falsy_version_falls_back_witness :
  configured_version (JObject [("version"%string, JString [])]) (World (Dir []) [])
  = Returned (JString (lit "1.0.0")) (World (Dir []) []).
Proof.
  apply (@falsy_version_falls_back silent_env
           [("version"%string, JString [])] (JString []) (World (Dir []) []));
    reflexivity.
Defined.

(** ** The optional packaging *)

Lemma execSync_run (E : env) (cmd : text) (w : world) :
  execSync E cmd w
  = if snd (exec E cmd (files w))
    then Returned tt (World (fst (exec E cmd (files w))) (console w))
    else Thrown (CommandFailed cmd) (World (fst (exec E cmd (files w))) (console w)).
Proof.
  unfold execSync. now destruct (exec E cmd (files w)) as [n []].
Qed.

Lemma for_each_warn (lines : list text) (w : world) :
  for_each lines console_warn w
  = Returned tt (World (files w) (console w ++ warn_lines lines)).
Proof. apply (for_each_print WARN). Qed.

Lemma for_each_log (lines : list text) (w : world) :
  for_each lines console_log w
  = Returned tt (World (files w) (console w ++ log_lines lines)).
Proof. apply (for_each_print LOG). Qed.

(** The packaging step always returns: a failing command is caught and
    answered by the recovery lines, and the step itself touches no file. *)
Lemma packaging_run (p : platform) (E : env) (v : json) (w : world) :
  match p with
  | Samsung => Tizen.createWGT E (Tizen.TIZEN_CONFIG v)
  | LG => WebOS.createIPK E
  end w
  = Returned tt
      (World (files_after_commands p E v (files w))
             (console w ++ packaging_lines p E v (files w))).
Proof.
  destruct w as [n log].
  unfold files_after_commands, packaging_lines.
  destruct p; unfold Tizen.createWGT, WebOS.createIPK, try_catch, bind;
    rewrite execSync_run; simpl files; simpl probe_of;
    (destruct (exec E _ n) as [n1 [|]] eqn:E1; simpl fst; simpl snd; cbv iota;
     [ unfold console_log at 1, print at 1; simpl files; simpl console;
       rewrite execSync_run; simpl files; simpl package_of;
       destruct (exec E _ n1) as [n2 [|]] eqn:E2; simpl fst; simpl snd; cbv iota;
       [ unfold console_log, print; simpl; now rewrite <- app_assoc
       | rewrite for_each_warn; simpl; now rewrite <- app_assoc ]
     | now rewrite for_each_warn ]).
Qed.

Lemma bind_ext {A B} (c : M A) (k k' : A -> M B) (w : world) :
  (forall a w', k a w' = k' a w') -> bind c k w = bind c k' w.
Proof. intros H. unfold bind. destruct (c w); auto. Qed.

Lemma tizen_sequence (E : env) (c : Tizen.config) (fuel : nat) (rest : M unit) (w : world) :
  (copyDistFiles fuel Tizen.TIZEN_DIR "Tizen" ;;
   fixIndexHtmlPaths Tizen.TIZEN_DIR ;;
   Tizen.createConfigXml E c ;;
   Tizen.handleIcons c ;;
   rest) w
  = (tizen_steps E c fuel ;; rest) w.
Proof.
  unfold tizen_steps, tizen_descriptor_steps. rewrite !bind_assoc.
  apply bind_ext. intros _ w'. now rewrite bind_assoc.
Qed.

Lemma webos_sequence (E : env) (c : WebOS.config) (fuel : nat) (rest : M unit) (w : world) :
  (copyDistFiles fuel WebOS.WEBOS_DIR "webOS" ;;
   fixIndexHtmlPaths WebOS.WEBOS_DIR ;;
   WebOS.createAppInfo E c ;;
   WebOS.handleIcons c ;;
   rest) w
  = (webos_steps E c fuel ;; rest) w.
Proof.
  unfold webos_steps. rewrite !bind_assoc.
  apply bind_ext. intros _ w'. rewrite !bind_assoc.
  apply bind_ext. intros _ w''. now rewrite bind_assoc.
Qed.

(** Once the mandatory steps have returned, [main] returns: the packaging
    step and the instructions cannot fail. *)
Lemma main_run (p : platform) (E : env) (v : json) (fuel : nat) (w w4 : world) :
  steps_of p E v fuel (World (files w) (console w ++ [start_of p]))
  = Returned tt w4 ->
  main_of p E v fuel w
  = Returned tt
      (World (files_after_commands p E v (files w4))
             (console w4 ++ packaging_lines p E v (files w4)
              ++ log_lines (instructions_of p E v))).
Proof.
  intros Hsteps. destruct p; simpl in Hsteps; simpl main_of.
  - unfold Tizen.main. erewrite bind_returned by reflexivity.
    unfold try_catch. rewrite tizen_sequence.
    erewrite bind_returned by exact Hsteps.
    erewrite bind_returned by exact (packaging_run Samsung E v w4).
    unfold Tizen.displayInstructions. rewrite for_each_log. simpl.
    now rewrite <- app_assoc.
  - unfold WebOS.main. erewrite bind_returned by reflexivity.
    unfold try_catch. rewrite webos_sequence.
    erewrite bind_returned by exact Hsteps.
    erewrite bind_returned by exact (packaging_run LG E v w4).
    unfold WebOS.displayInstructions. rewrite for_each_log. simpl.
    now rewrite <- app_assoc.
Qed.



Lemma handleIcons_missing (c : Tizen.config) (w : world) :
  get (join iconsDir "icon-512.png") (files w) = None ->
  Tizen.handleIcons c w
  = Returned tt (World (files w) (console w ++ warn_lines missing_icon_lines)).
Proof.
  intros H. destruct w as [n log]. cbn [files] in H.
  unfold Tizen.handleIcons.
  erewrite bind_returned by apply existsSync_run.
  rewrite H. cbv iota.
  erewrite bind_returned by reflexivity.
  unfold console_warn, print. simpl. now rewrite <- app_assoc.
Qed.

(** C8. For every state of the files in which
    [assets/images/icon-512.png] is absent, the icon step of the Samsung
    exporter returns without touching any file -- it writes no [icon.png]
    into the staging directory -- and prints two warnings, the second of
    which names the path [assets/images/icon-512.png].  When the steps
    before it have returned, the run goes on: [main] returns, the exit
    status is 0, and the warning is among the lines printed. *)
Theorem missing_icon_only_warns
    (E : env) (v : json) (fuel : nat) (w : world) :
  get (join iconsDir "icon-512.png") (files w) = None ->
  Tizen.handleIcons (Tizen.TIZEN_CONFIG v) w
  = Returned tt (World (files w) (console w ++ warn_lines missing_icon_lines))
  /\ (exists before after,
         nth 1 missing_icon_lines []
         = before ++ lit "assets/images/icon-512.png" ++ after)
  /\ (forall w0,
         tizen_descriptor_steps E (Tizen.TIZEN_CONFIG v) fuel
           (World (files w0) (console w0 ++ [tizen_start]))
         = Returned tt w ->
         exists w',
           Tizen.main E (Tizen.TIZEN_CONFIG v) fuel w0 = Returned tt w'
           /\ exit_status (Tizen.main E (Tizen.TIZEN_CONFIG v) fuel w0) = Some 0
           /\ files w' = files_after_commands Samsung E v (files w)
           /\ (forall t, In t missing_icon_lines -> In (WARN, [Text t]) (console w'))).
Proof.
  intros Hicon.
  pose proof (handleIcons_missing (Tizen.TIZEN_CONFIG v) w Hicon) as Hstep.
  split; [exact Hstep | split].
  - exists (lit "  - "), (lit " (512x512 PNG)"). reflexivity.
  - intros w0 Hbefore.
    assert (steps_of Samsung E v fuel
              (World (files w0) (console w0 ++ [start_of Samsung]))
            = Returned tt (World (files w) (console w ++ warn_lines missing_icon_lines)))
      as Hsteps.
    { simpl. unfold tizen_steps.
      erewrite bind_returned by exact Hbefore. exact Hstep. }
    pose proof (main_run Samsung E v fuel w0 Hsteps) as Hmain.
    simpl main_of in Hmain. eexists. split; [exact Hmain|].
    rewrite Hmain. cbn [files console exit_status].
    split; [reflexivity | split; [reflexivity|]].
    intros t Ht. apply in_or_app. left. apply in_or_app. right.
    unfold warn_lines. now apply in_map with (f := fun t => (WARN, [Text t])).
Qed.

Lemma missing_icon_only_warns_witness :
  Tizen.handleIcons (Tizen.TIZEN_CONFIG (JString (lit "2.3.1"))) sample_project
  = Returned tt
      (World (files sample_project)
             (console sample_project ++ warn_lines missing_icon_lines)).
Proof.
  apply (@missing_icon_only_warns silent_env (JString (lit "2.3.1")) 3 sample_project).
  reflexivity.
Defined.
